(** * Donut screensaver: the physics core, the controller and the timer

    A shallow embedding of the Go program (package [main], the variant with
    the key-driven donut count and the timer overlay, together with the
    earlier variant in [main.go]).

    Numbers.  Go's [float64] is modelled by the real numbers [R]: every
    arithmetic operation is the exact one, [math.Sqrt], [math.Cos],
    [math.Sin], [math.Min] and [math.Pi] are [sqrt], [cos], [sin], [Rmin]
    and [PI].  Rounding, infinities and NaN are outside this model.  Go's
    [int] is modelled by [Z]; the guards of the code keep every integer
    operation used here far from the 64-bit limits.

    Effects.  The package-level random generator is a stream of draws with a
    cursor ([Rand]); the functions that draw thread it explicitly.
    A run-time panic ([make] with a negative length) is [None]. *)

From Stdlib Require Import Reals Lra Lia ZArith List String Ascii Bool.
From Stdlib Require Import Decimal DecimalString DecimalN.
From stdpp Require Import base list.

Open Scope R_scope.

(** ** float64 comparisons *)

Definition fle (a b : R) : bool := if Rle_dec a b then true else false.
Definition flt (a b : R) : bool := if Rlt_dec a b then true else false.
Definition fge (a b : R) : bool := fle b a.
Definition fgt (a b : R) : bool := flt b a.
Definition feq (a b : R) : bool := if Req_dec_T a b then true else false.

(** ** Data model *)

Record Donut := mkDonut {
  x : R;
  y : R;
  vx : R;
  vy : R;
  rotation : R;
  rotationSpeed : R
}.

(** ** The random source

    [rand.Float64()] returns the next draw of the process-wide generator, a
    number in the half-open interval from 0 to 1, and advances it. *)

Record Rand := mkRand {
  stream : nat -> R;
  cursor : nat
}.

Definition Float64 (r : Rand) : R * Rand :=
  (stream r (cursor r), mkRand (stream r) (S (cursor r))).

(** The contract of [rand.Float64]. *)
Definition rand_ok (r : Rand) : Prop := forall k, 0 <= stream r k < 1.

(** A small state monad for the code that draws. *)
Definition Draw (A : Type) : Type := Rand -> A * Rand.
Definition ret {A} (a : A) : Draw A := fun r => (a, r).
Definition bind {A B} (m : Draw A) (k : A -> Draw B) : Draw B :=
  fun r => let '(a, r1) := m r in k a r1.

Declare Scope draw_scope.
Delimit Scope draw_scope with rnd.
Notation "'draw' u 'in' k" := (bind Float64 (fun u => k))
  (at level 10, u name, k at level 200) : draw_scope.

(** ** Integrator: the body of the loop "Update each donut"

    The same text in both variants of [Game.Update]; the four numbers are
    [g.screenWidth], [g.screenHeight], [g.donutWidth], [g.donutHeight]. *)

Definition updateDonut (screenWidth screenHeight : Z)
    (donutWidth donutHeight : R) (donut : Donut) : Donut :=
  (* Update position *)
  let x1 := x donut + vx donut in
  let y1 := y donut + vy donut in
  (* Update rotation *)
  let rot := rotation donut + rotationSpeed donut in
  (* Bounce off edges *)
  let '(x2, vx2) :=
    if fle x1 0 || fge x1 (IZR screenWidth - donutWidth)
    then (if fle x1 0 then 0 else IZR screenWidth - donutWidth, - vx donut)
    else (x1, vx donut) in
  let '(y2, vy2) :=
    if fle y1 0 || fge y1 (IZR screenHeight - donutHeight)
    then (if fle y1 0 then 0 else IZR screenHeight - donutHeight, - vy donut)
    else (y1, vy donut) in
  mkDonut x2 y2 vx2 vy2 rot (rotationSpeed donut).

(** ** Spawner *)

(** The position drawn for one donut, before the clamp ("Random position
    near center"); [u1] and [u2] are the two draws. *)
Definition spawnXY (screenWidth screenHeight : Z)
    (donutWidth donutHeight : R) (u1 u2 : R) : R * R :=
  let centerX := IZR screenWidth / 2 in
  let centerY := IZR screenHeight / 2 in
  let spawnRadius := Rmin (IZR screenWidth) (IZR screenHeight) * 0.25 in
  let angle := u1 * 2 * PI in
  let distance := u2 * spawnRadius in
  (centerX + cos angle * distance - donutWidth / 2,
   centerY + sin angle * distance - donutHeight / 2).

(** "Ensure donuts stay within screen bounds", one axis. *)
Definition clampSpawn (screen : Z) (size : R) (p : R) : R :=
  if flt p 0 then 0
  else if fgt p (IZR screen - size) then IZR screen - size
  else p.

(** One iteration of the loop of [createDonuts], for index [i]: eight draws,
    in the order of the source. *)
Definition createDonut (screenWidth screenHeight : Z)
    (donutWidth donutHeight : R) (i : nat) : Draw Donut :=
  (draw u1 in
   draw u2 in
   let '(x0, y0) := spawnXY screenWidth screenHeight donutWidth donutHeight u1 u2 in
   let x := clampSpawn screenWidth donutWidth x0 in
   let y := clampSpawn screenHeight donutHeight y0 in
   draw u3 in
   let vx := 1.5 + u3 * 3.0 in
   draw u4 in
   let vy := 1.5 + u4 * 3.0 in
   draw u5 in
   let vx := if flt u5 0.5 then - vx else vx in
   draw u6 in
   let vy := if flt u6 0.5 then - vy else vy in
   draw u7 in
   let rotationSpeed := 0.015 + u7 * 0.02 in
   let rotationSpeed :=
     if Nat.eqb (i mod 2) 1 then - rotationSpeed else rotationSpeed in
   draw u8 in
   ret (mkDonut x y vx vy (u8 * 2 * PI) rotationSpeed))%rnd.

(** [for i := 0; i < numDonuts; i++ { ...; donuts[i] = Donut{...} }] over a
    slice made with that length: the slots are filled in order, [n] is the
    number of iterations left. *)
Fixpoint createLoop (screenWidth screenHeight : Z)
    (donutWidth donutHeight : R) (i n : nat) : Draw (list Donut) :=
  match n with
  | O => ret []
  | S n' =>
      bind (createDonut screenWidth screenHeight donutWidth donutHeight i)
        (fun d =>
           bind (createLoop screenWidth screenHeight donutWidth donutHeight (S i) n')
             (fun ds => ret (d :: ds)))
  end.

(** [make([]Donut, numDonuts)] panics when [numDonuts] is negative. *)
Definition createDonuts (screenWidth screenHeight : Z)
    (donutWidth donutHeight : R) (numDonuts : Z) (r : Rand)
    : option (list Donut * Rand) :=
  if (numDonuts <? 0)%Z then None
  else Some (createLoop screenWidth screenHeight donutWidth donutHeight
               0 (Z.to_nat numDonuts) r).

(** ** Input and results of [Update] *)

Inductive Key :=
  KeyEscape | KeyEqual | KeyNumpadAdd | KeyMinus | KeyNumpadSubtract.

(** [inpututil.IsKeyJustPressed], for the current frame. *)
Definition Input := Key -> bool.

Inductive error := ErrNil | Termination.

(** ** The game of the full variant (count keys, collisions, timer) *)

(** [time.Time] is an instant in nanoseconds on the wall clock. *)
Definition Time := Z.

Record Game := mkGame {
  donutWidth : R;
  donutHeight : R;
  donuts : list Donut;
  screenWidth : Z;
  screenHeight : Z;
  numDonuts : Z;
  timerStartTime : Time
}.

Arguments mkGame _%_R _%_R _ _%_Z _%_Z _%_Z _%_Z.

Definition maxDonuts : Z := 50.
Definition minDonuts : Z := 1.
Definition initialDonuts : Z := 6.

Definition setDonuts (g : Game) (ds : list Donut) : Game :=
  mkGame (donutWidth g) (donutHeight g) ds (screenWidth g) (screenHeight g)
         (numDonuts g) (timerStartTime g).

Definition setNumDonuts (g : Game) (n : Z) : Game :=
  mkGame (donutWidth g) (donutHeight g) (donuts g) (screenWidth g)
         (screenHeight g) n (timerStartTime g).

Definition setScreen (g : Game) (w h : Z) : Game :=
  mkGame (donutWidth g) (donutHeight g) (donuts g) w h
         (numDonuts g) (timerStartTime g).

(** [for i := range g.donuts]: iteration [i] reads and writes [g.donuts[i]]
    only. *)
Definition updateDonuts (g : Game) : list Donut :=
  map (updateDonut (screenWidth g) (screenHeight g)
                   (donutWidth g) (donutHeight g)) (donuts g).

(** ** Collision resolver *)

Definition areDonutsColliding (x1 y1 x2 y2 radius : R) : bool :=
  let dx := x2 - x1 in
  let dy := y2 - y1 in
  let distance := sqrt (dx * dx + dy * dy) in
  flt distance (radius * 2).

(** [resolveCollision] mutates the two donuts through their pointers; the
    model returns the pair of new values. *)
Definition resolveCollision (g : Game) (donut1 donut2 : Donut)
    (center1X center1Y center2X center2Y : R) : Donut * Donut :=
  (* Calculate collision vector *)
  let dx := center2X - center1X in
  let dy := center2Y - center1Y in
  let distance := sqrt (dx * dx + dy * dy) in
  (* Avoid division by zero *)
  let '(dx, dy, distance) :=
    if feq distance 0 then (1, 0, 1) else (dx, dy, distance) in
  (* Normalize collision vector *)
  let nx := dx / distance in
  let ny := dy / distance in
  (* Separate the donuts so they don't overlap *)
  let radius := donutWidth g / 2 in
  let overlap := (radius * 2) - distance in
  let separationX := nx * overlap * 0.5 in
  let separationY := ny * overlap * 0.5 in
  let x1 := x donut1 - separationX in
  let y1 := y donut1 - separationY in
  let x2 := x donut2 + separationX in
  let y2 := y donut2 + separationY in
  (* Calculate relative velocity *)
  let dvx := vx donut2 - vx donut1 in
  let dvy := vy donut2 - vy donut1 in
  (* Calculate relative velocity along collision normal *)
  let dvn := dvx * nx + dvy * ny in
  (* Don't resolve if velocities are separating *)
  if fgt dvn 0 then
    (mkDonut x1 y1 (vx donut1) (vy donut1) (rotation donut1) (rotationSpeed donut1),
     mkDonut x2 y2 (vx donut2) (vy donut2) (rotation donut2) (rotationSpeed donut2))
  else
    (* Collision impulse (assuming equal mass and elastic collision) *)
    let impulse := 2 * dvn / 2 in
    (mkDonut x1 y1 (vx donut1 + impulse * nx) (vy donut1 + impulse * ny)
             (rotation donut1) (rotationSpeed donut1),
     mkDonut x2 y2 (vx donut2 - impulse * nx) (vy donut2 - impulse * ny)
             (rotation donut2) (rotationSpeed donut2)).

(** The body of the inner loop of [handleDonutCollisions], for the index
    pair [(i, j)]: the two slots are read, tested and, when they collide,
    written back.  The loop bounds keep both indices in range. *)
Definition collidePair (g : Game) (i j : nat) (ds : list Donut) : list Donut :=
  let radius := donutWidth g / 2 in
  match ds !! i, ds !! j with
  | Some donut1, Some donut2 =>
      let center1X := x donut1 + radius in
      let center1Y := y donut1 + radius in
      let center2X := x donut2 + radius in
      let center2Y := y donut2 + radius in
      if areDonutsColliding center1X center1Y center2X center2Y radius then
        let '(d1, d2) :=
          resolveCollision g donut1 donut2 center1X center1Y center2X center2Y in
        <[j := d2]> (<[i := d1]> ds)
      else ds
  | _, _ => ds
  end.

(** [for j := i + 1; j < len(g.donuts); j++] *)
Definition collideFrom (g : Game) (i : nat) (ds : list Donut) : list Donut :=
  fold_left (fun acc j => collidePair g i j acc)
            (seq (S i) (length ds - S i)) ds.

(** [for i := 0; i < len(g.donuts); i++] *)
Definition handleDonutCollisions (g : Game) (ds : list Donut) : list Donut :=
  fold_left (fun acc i => collideFrom g i acc) (seq 0 (length ds)) ds.

(** ** Simulation controller *)

(** "Handle plus key to add more donuts" *)
Definition handlePlus (inp : Input) (g : Game) (r : Rand) : option (Game * Rand) :=
  if inp KeyEqual || inp KeyNumpadAdd then
    if (numDonuts g <? maxDonuts)%Z then
      let g1 := setNumDonuts g (numDonuts g + 1)%Z in
      '(ds, r1) ← createDonuts (screenWidth g1) (screenHeight g1)
                     (donutWidth g1) (donutHeight g1) (numDonuts g1) r;
      Some (setDonuts g1 ds, r1)
    else Some (g, r)
  else Some (g, r).

(** "Handle minus key to remove donuts" *)
Definition handleMinus (inp : Input) (g : Game) (r : Rand) : option (Game * Rand) :=
  if inp KeyMinus || inp KeyNumpadSubtract then
    if (numDonuts g >? minDonuts)%Z then
      let g1 := setNumDonuts g (numDonuts g - 1)%Z in
      '(ds, r1) ← createDonuts (screenWidth g1) (screenHeight g1)
                     (donutWidth g1) (donutHeight g1) (numDonuts g1) r;
      Some (setDonuts g1 ds, r1)
    else Some (g, r)
  else Some (g, r).

(** The steady-state part of [Update]: integrate every donut, then resolve
    the collisions. *)
Definition tick (g : Game) : Game :=
  let g1 := setDonuts g (updateDonuts g) in
  setDonuts g1 (handleDonutCollisions g1 (donuts g1)).

Definition Update (inp : Input) (g : Game) (r : Rand)
    : option (error * Game * Rand) :=
  (* Check for the escape key to exit *)
  if inp KeyEscape then Some (Termination, g, r)
  else
    '(g1, r1) ← handlePlus inp g r;
    '(g2, r2) ← handleMinus inp g1 r1;
    Some (ErrNil, tick g2, r2).

Definition Layout (outsideWidth outsideHeight : Z) (g : Game) (r : Rand)
    : option (Z * Z * Game * Rand) :=
  (* Update screen dimensions when the window is resized *)
  if negb (screenWidth g =? outsideWidth)%Z
     || negb (screenHeight g =? outsideHeight)%Z then
    let g1 := setScreen g outsideWidth outsideHeight in
    (* Recreate donuts with new screen dimensions *)
    '(ds, r1) ← createDonuts outsideWidth outsideHeight
                   (donutWidth g1) (donutHeight g1) (numDonuts g1) r;
    Some (outsideWidth, outsideHeight, setDonuts g1 ds, r1)
  else Some (outsideWidth, outsideHeight, g, r).

(** ** Timer overlay *)

(** [time.Duration]: signed 64-bit nanoseconds. *)
Definition Duration := Z.
Definition minDuration : Duration := (- 2 ^ 63)%Z.
Definition maxDuration : Duration := (2 ^ 63 - 1)%Z.
Definition Second : Duration := 1000000000%Z.

(** [t.Sub(u)]: the difference, saturated to the range of [Duration]. *)
Definition Sub (t u : Time) : Duration :=
  let d := (t - u)%Z in
  if (d <? minDuration)%Z then minDuration
  else if (d >? maxDuration)%Z then maxDuration
  else d.

(** [d.Seconds()]: [float64(d / Second) + float64(d % Second) / 1e9]. *)
Definition Seconds (d : Duration) : R :=
  IZR (Z.quot d Second) + IZR (Z.rem d Second) / 1e9.

(** The conversion [int(f)] of a float: truncation toward zero. *)
Definition int_of_float (f : R) : Z :=
  if Rle_dec 0 f then Int_part f else (- Int_part (- f))%Z.

Fixpoint zeros (k : nat) : string :=
  match k with
  | O => EmptyString
  | S k' => String "0" (zeros k')
  end.

(** The decimal digits of the absolute value. *)
Definition digits (n : Z) : string :=
  NilEmpty.string_of_uint (N.to_uint (Z.abs_N n)).

(** The verb [%0<width>d] of [fmt.Sprintf]: decimal, padded with zeros to at
    least [width] characters, the sign (if any) before the padding. *)
Definition fmt_0d (width : nat) (n : Z) : string :=
  let ds := digits n in
  if (n <? 0)%Z
  then String "-" (zeros (width - 1 - String.length ds) ++ ds)
  else zeros (width - String.length ds) ++ ds.

(** The text that [drawTimer] renders when the clock reads [now]. *)
Definition timerText (g : Game) (now : Time) : string :=
  (* Calculate elapsed time since the configured start time *)
  let elapsed := Sub now (timerStartTime g) in
  (* If start time is in the future, show 000:00:00 *)
  let elapsed := if (elapsed <? 0)%Z then 0%Z else elapsed in
  (* Convert to hours, minutes, and seconds *)
  let totalSeconds := int_of_float (Seconds elapsed) in
  let hours := Z.quot totalSeconds 3600 in
  let minutes := Z.quot (Z.rem totalSeconds 3600) 60 in
  let seconds := Z.rem totalSeconds 60 in
  (* Format as HHH:MM:SS *)
  fmt_0d 3 hours ++ ":" ++ fmt_0d 2 minutes ++ ":" ++ fmt_0d 2 seconds.

Arguments timerText g now%_Z.

(** ** The variant of [main.go]: a fixed number of donuts, no collisions *)

Module MainGo.

Definition numDonuts : Z := 6.

Record Game := mkGame {
  donutWidth : R;
  donutHeight : R;
  donuts : list Donut;
  screenWidth : Z;
  screenHeight : Z
}.

Definition createDonuts (screenWidth screenHeight : Z)
    (donutWidth donutHeight : R) : Draw (list Donut) :=
  createLoop screenWidth screenHeight donutWidth donutHeight
             0 (Z.to_nat numDonuts).

Definition Update (inp : Input) (g : Game) : error * Game :=
  if inp KeyEscape then (Termination, g)
  else
    (ErrNil,
     mkGame (donutWidth g) (donutHeight g)
            (map (updateDonut (screenWidth g) (screenHeight g)
                              (donutWidth g) (donutHeight g)) (donuts g))
            (screenWidth g) (screenHeight g)).

Definition Layout (outsideWidth outsideHeight : Z) (g : Game) (r : Rand)
    : Z * Z * Game * Rand :=
  if negb (screenWidth g =? outsideWidth)%Z
     || negb (screenHeight g =? outsideHeight)%Z then
    let '(ds, r1) :=
      createDonuts outsideWidth outsideHeight (donutWidth g) (donutHeight g) r in
    (outsideWidth, outsideHeight,
     mkGame (donutWidth g) (donutHeight g) ds outsideWidth outsideHeight, r1)
  else (outsideWidth, outsideHeight, g, r).

End MainGo.

(** ** Start-up and the frame loop *)

Definition donutScale : R := 0.5.

(** The state that [main] builds from the bounds of the decoded image
    ([bounds.Dx()], [bounds.Dy()]) and the configured start of the timer. *)
Definition initialGame (boundsDx boundsDy : Z) (start : Time) (r : Rand)
    : option (Game * Rand) :=
  (* Calculate scaled dimensions *)
  let donutWidth := IZR boundsDx * donutScale in
  let donutHeight := IZR boundsDy * donutScale in
  (* Start with default dimensions *)
  let screenWidth := 800%Z in
  let screenHeight := 600%Z in
  '(ds, r1) ← createDonuts screenWidth screenHeight donutWidth donutHeight
                 initialDonuts r;
  Some (mkGame donutWidth donutHeight ds screenWidth screenHeight
               initialDonuts start, r1).

(** What the framework hands to the game: a frame to update, with the keys
    pressed in it, or a new size of the window. *)
Inductive Event :=
| Frame (inp : Input)
| Resize (outsideWidth outsideHeight : Z).

(** [ebiten.RunGame]: the events are served in order; [Termination] ends
    the loop, the events that remain are not served. *)
Fixpoint runGame (evs : list Event) (g : Game) (r : Rand) : option (Game * Rand) :=
  match evs with
  | [] => Some (g, r)
  | Frame inp :: evs' =>
      '(e, g1, r1) ← Update inp g r;
      match e with
      | Termination => Some (g1, r1)
      | ErrNil => runGame evs' g1 r1
      end
  | Resize w h :: evs' =>
      '(_, _, g1, r1) ← Layout w h g r;
      runGame evs' g1 r1
  end.

(** ** Rendering: the geometry of [Draw]

    [ebiten.GeoM] is the affine map [(u, v) |-> (a u + b v + tx, c u + d v + ty)];
    [Scale], [Translate] and [Rotate] compose the map with a scaling, a
    translation or a rotation applied after it, as the library documents
    them. *)

Record GeoM := mkGeoM { ga : R; gb : R; gc : R; gd : R; gtx : R; gty : R }.

Definition GeoM_identity : GeoM := mkGeoM 1 0 0 1 0 0.

Definition GeoM_Scale (sx sy : R) (m : GeoM) : GeoM :=
  mkGeoM (ga m * sx) (gb m * sx) (gc m * sy) (gd m * sy) (gtx m * sx) (gty m * sy).

Definition GeoM_Translate (tx ty : R) (m : GeoM) : GeoM :=
  mkGeoM (ga m) (gb m) (gc m) (gd m) (gtx m + tx) (gty m + ty).

Definition GeoM_Rotate (theta : R) (m : GeoM) : GeoM :=
  if feq theta 0 then m
  else
    mkGeoM (cos theta * ga m - sin theta * gc m)
           (cos theta * gb m - sin theta * gd m)
           (sin theta * ga m + cos theta * gc m)
           (sin theta * gb m + cos theta * gd m)
           (cos theta * gtx m - sin theta * gty m)
           (sin theta * gtx m + cos theta * gty m).

Definition GeoM_Apply (m : GeoM) (p : R * R) : R * R :=
  (ga m * fst p + gb m * snd p + gtx m, gc m * fst p + gd m * snd p + gty m).

(** The transform that [Draw] builds for one donut. *)
Definition donutGeoM (g : Game) (donut : Donut) : GeoM :=
  (* 1. Scale the image *)
  let op := GeoM_Scale donutScale donutScale GeoM_identity in
  (* 2. Translate to center the rotation point *)
  let op := GeoM_Translate (- donutWidth g / 2) (- donutHeight g / 2) op in
  (* 3. Rotate around the origin *)
  let op := GeoM_Rotate (rotation donut) op in
  (* 4. Translate back and then to final position *)
  let op := GeoM_Translate (donutWidth g / 2) (donutHeight g / 2) op in
  GeoM_Translate (x donut) (y donut) op.

(** The width in pixels of the temporary image of [drawTimer]:
    [len(timerText) * baseFontWidth]. *)
Definition timerTextWidth (g : Game) (now : Time) : Z :=
  (Z.of_nat (String.length (timerText g now)) * 7)%Z.

Arguments timerTextWidth g now%_Z.

(** ** The first variant: one donut, held in the game itself *)

Module Single.

Record Game := mkGame {
  donutWidth : R;
  donutHeight : R;
  x : R;
  y : R;
  vx : R;
  vy : R;
  screenWidth : Z;
  screenHeight : Z
}.

Definition Update (inp : Input) (g : Game) : error * Game :=
  (* Check for the escape key to exit *)
  if inp KeyEscape then (Termination, g)
  else
    (* Update position *)
    let x1 := x g + vx g in
    let y1 := y g + vy g in
    (* Bounce off edges *)
    let '(x2, vx2) :=
      if fle x1 0 || fge x1 (IZR (screenWidth g) - donutWidth g)
      then (if fle x1 0 then 0 else IZR (screenWidth g) - donutWidth g, - vx g)
      else (x1, vx g) in
    let '(y2, vy2) :=
      if fle y1 0 || fge y1 (IZR (screenHeight g) - donutHeight g)
      then (if fle y1 0 then 0 else IZR (screenHeight g) - donutHeight g, - vy g)
      else (y1, vy g) in
    (ErrNil, mkGame (donutWidth g) (donutHeight g) x2 y2 vx2 vy2
                    (screenWidth g) (screenHeight g)).

Definition Layout (outsideWidth outsideHeight : Z) (g : Game) : Z * Z * Game :=
  (* Update screen dimensions when the window is resized *)
  (outsideWidth, outsideHeight,
   mkGame (donutWidth g) (donutHeight g) (x g) (y g) (vx g) (vy g)
          outsideWidth outsideHeight).

(** The state that [main] builds. *)
Definition initialGame (boundsDx boundsDy : Z) : Game :=
  mkGame (IZR boundsDx * donutScale) (IZR boundsDy * donutScale)
         100 100 3 2 800 600.

End Single.

(** ** Notions of the specification *)

(** Euclidean distance between two points of the plane. *)
Definition dist (p q : R * R) : R :=
  sqrt ((fst q - fst p) * (fst q - fst p) + (snd q - snd p) * (snd q - snd p)).

(** The centre of a body of radius [radius] whose bounding box has its
    top-left corner at the donut's position. *)
Definition center (radius : R) (d : Donut) : R * R :=
  (x d + radius, y d + radius).

(** The boundary invariant, for one donut. *)
Definition inBounds (screenWidth screenHeight : Z)
    (donutWidth donutHeight : R) (d : Donut) : Prop :=
  0 <= x d <= IZR screenWidth - donutWidth /\
  0 <= y d <= IZR screenHeight - donutHeight.

Definition allInBounds (g : Game) (ds : list Donut) : Prop :=
  Forall (inBounds (screenWidth g) (screenHeight g)
                   (donutWidth g) (donutHeight g)) ds.

(** The screen is at least as large as a body. *)
Definition screenFits (g : Game) : Prop :=
  donutWidth g <= IZR (screenWidth g) /\ donutHeight g <= IZR (screenHeight g).

(** No pair of donuts of [ds] is reported colliding. *)
Definition noCollision (g : Game) (ds : list Donut) : Prop :=
  forall i j d1 d2, (i < j)%nat -> ds !! i = Some d1 -> ds !! j = Some d2 ->
    areDonutsColliding (x d1 + donutWidth g / 2) (y d1 + donutWidth g / 2)
                       (x d2 + donutWidth g / 2) (y d2 + donutWidth g / 2)
                       (donutWidth g / 2) = false.

(** The rule of the bounce on one axis: [p], [v] are position and velocity
    before the step, [p'], [v'] after it, [bound] is the far bound. *)
Definition axisBounce (bound p v p' v' : R) : Prop :=
  (p + v <= 0 -> p' = 0 /\ v' = - v) /\
  (0 < p + v -> bound <= p + v -> p' = bound /\ v' = - v) /\
  (0 < p + v < bound -> p' = p + v /\ v' = v).

(** The increase-count and decrease-count requests of a frame. *)
Definition plusPressed (inp : Input) : bool := inp KeyEqual || inp KeyNumpadAdd.
Definition minusPressed (inp : Input) : bool := inp KeyMinus || inp KeyNumpadSubtract.

(** The state after a respawn with [ds] on a screen of [w] by [h] with
    count [n]: everything else is kept. *)
Definition respawned (g : Game) (w h n : Z) (ds : list Donut) : Game :=
  mkGame (donutWidth g) (donutHeight g) ds w h n (timerStartTime g).

(** The spawn disk. *)
Definition spawnRadius (screenWidth screenHeight : Z) : R :=
  0.25 * Rmin (IZR screenWidth) (IZR screenHeight).

Definition screenCenter (screenWidth screenHeight : Z) : R * R :=
  (IZR screenWidth / 2, IZR screenHeight / 2).

(** The centre of the bounding box whose top-left corner is [p]. *)
Definition bodyCenter (donutWidth donutHeight : R) (p : R * R) : R * R :=
  (fst p + donutWidth / 2, snd p + donutHeight / 2).

(** The position, before the clamp, of the [k]-th donut that [createDonuts]
    makes from the source [r]: every donut takes eight draws, the first two
    are the angle and the distance. *)
Definition preClamp (screenWidth screenHeight : Z)
    (donutWidth donutHeight : R) (r : Rand) (k : nat) : R * R :=
  spawnXY screenWidth screenHeight donutWidth donutHeight
          (stream r (cursor r + 8 * k)) (stream r (cursor r + 8 * k + 1)).

(** The whole seconds that the overlay is to show: the floor of the elapsed
    time in seconds, and zero when the reference is in the future. *)
Definition shownSeconds (g : Game) (now : Time) : Z :=
  Z.max 0 (Sub now (timerStartTime g) / Second).


(** The sum of a quantity over all donuts ([vx] and [vy] give the total
    momentum of equal masses). *)
Definition total (f : Donut -> R) (ds : list Donut) : R :=
  fold_right (fun d acc => f d + acc) 0 ds.

(** The states that [main] builds and [Update] and [Layout] keep: the count
    is in range and is the number of donuts. *)
Definition wellFormed (g : Game) : Prop :=
  (minDonuts <= numDonuts g <= maxDonuts)%Z /\
  Z.of_nat (length (donuts g)) = numDonuts g.

(** Twice the kinetic energy of a donut of unit mass. *)
Definition kinetic (d : Donut) : R := vx d * vx d + vy d * vy d.

(** The unit normal that [resolveCollision] works with: the direction from
    the first centre to the second, and [(1, 0)] when they coincide. *)
Definition collisionNormal (center1X center1Y center2X center2Y : R) : R * R :=
  let dx := center2X - center1X in
  let dy := center2Y - center1Y in
  let distance := sqrt (dx * dx + dy * dy) in
  if feq distance 0 then (1, 0) else (dx / distance, dy / distance).

(** [n] frames of the [main.go] variant with no key pressed. *)
Definition runMainGo (n : nat) (g : MainGo.Game) : MainGo.Game :=
  Nat.iter n (fun g => snd (MainGo.Update (fun _ => false) g)) g.

(** [n] steady-state ticks of the full variant. *)
Definition ticks (n : nat) (g : Game) : Game := Nat.iter n tick g.

(** What no event changes: the size of a body and the start of the timer. *)
Definition sameSetup (g g' : Game) : Prop :=
  donutWidth g' = donutWidth g /\ donutHeight g' = donutHeight g /\
  timerStartTime g' = timerStartTime g.

(** ** Sample states

    The default screen of [main] (800 by 600) and a body of 64 by 64. *)

Definition sampleGame (ds : list Donut) : Game :=
  mkGame 64 64 ds 800 600 (Z.of_nat (length ds)) 0%Z.

(** Two donuts inside the screen that do not overlap: the first is about
    to touch the left edge, the second closes in from the right. *)
Definition grazing : list Donut :=
  [ mkDonut 2 100 (-2) 2 0 0.02; mkDonut 68 100 (-4.5) 2 0 (-0.02) ].

(** Two donuts that the next integration step puts on the same spot. *)
Definition meeting : list Donut :=
  [ mkDonut 98 98 2 2 0 0.02; mkDonut 102 98 (-2) 2 0 (-0.02) ].

(** A source of draws that returns the same number forever. *)
Definition constRand (u : R) : Rand := mkRand (fun _ => u) 0.

Definition noKeys : Input := fun _ => false.

(** Frames in which only the increase (resp. decrease) key was pressed. *)
Definition plusKey : Input :=
  fun k => match k with KeyEqual => true | _ => false end.
Definition minusKey : Input :=
  fun k => match k with KeyMinus => true | _ => false end.

(** A frame in which both the increase and the decrease key were pressed. *)
Definition bothKeys : Input :=
  fun k => match k with KeyEqual | KeyMinus => true | _ => false end.

(** A source whose first draw is one half and every later draw 0.9. *)
Definition wideRand : Rand :=
  mkRand (fun k => match k with O => 0.5 | S _ => 0.9 end) 0.

(** * Properties *)

(** ** Comparisons *)

Lemma fle_true a b : a <= b -> fle a b = true.
Proof. intros H. unfold fle. destruct (Rle_dec a b); [reflexivity | contradiction]. Qed.

Lemma fle_false a b : b < a -> fle a b = false.
Proof. intros H. unfold fle. destruct (Rle_dec a b); [lra | reflexivity]. Qed.

Lemma flt_true a b : a < b -> flt a b = true.
Proof. intros H. unfold flt. destruct (Rlt_dec a b); [reflexivity | contradiction]. Qed.

Lemma flt_false a b : b <= a -> flt a b = false.
Proof. intros H. unfold flt. destruct (Rlt_dec a b); [lra | reflexivity]. Qed.

Lemma feq_true a b : a = b -> feq a b = true.
Proof. intros H. unfold feq. destruct (Req_dec_T a b); [reflexivity | contradiction]. Qed.

Lemma feq_false a b : a <> b -> feq a b = false.
Proof. intros H. unfold feq. destruct (Req_dec_T a b); [contradiction | reflexivity]. Qed.

Lemma flt_iff a b : flt a b = true <-> a < b.
Proof. unfold flt. destruct (Rlt_dec a b); split; intros; try easy. Qed.

Lemma fle_iff a b : fle a b = true <-> a <= b.
Proof. unfold fle. destruct (Rle_dec a b); split; intros; try easy. Qed.

(** Settle every comparison of the goal whose outcome [lra] can decide. *)
Ltac fcmp :=
  repeat first
    [ rewrite fle_true by lra
    | rewrite fle_false by lra
    | rewrite flt_true by lra
    | rewrite flt_false by lra
    | rewrite feq_true by lra
    | rewrite feq_false by lra ];
  simpl.

(** Split on the comparisons that remain. *)
Ltac fcases :=
  repeat match goal with
  | |- context [fle ?a ?b] =>
      let H := fresh "Hc" in
      destruct (Rle_dec a b) as [H | H];
      [ rewrite (fle_true a b H) | rewrite (fle_false a b) by lra ]
  | |- context [flt ?a ?b] =>
      let H := fresh "Hc" in
      destruct (Rlt_dec a b) as [H | H];
      [ rewrite (flt_true a b H) | rewrite (flt_false a b) by lra ]
  end; simpl.

(** ** Integrator *)

Lemma updateDonut_x W H w h d :
  axisBounce (IZR W - w) (x d) (vx d)
             (x (updateDonut W H w h d)) (vx (updateDonut W H w h d)).
Proof.
  unfold axisBounce, updateDonut, fge.
  repeat split; intros; fcmp; fcases; simpl; try lra.
Qed.

Lemma updateDonut_y W H w h d :
  axisBounce (IZR H - h) (y d) (vy d)
             (y (updateDonut W H w h d)) (vy (updateDonut W H w h d)).
Proof.
  unfold axisBounce, updateDonut, fge.
  repeat split; intros; fcmp; fcases; simpl; try lra.
Qed.

Lemma updateDonut_inBounds W H w h d :
  w <= IZR W -> h <= IZR H -> inBounds W H w h (updateDonut W H w h d).
Proof.
  intros HW HH. unfold inBounds, updateDonut, fge.
  fcases; simpl; lra.
Qed.

Lemma updateDonuts_inBounds g :
  screenFits g -> allInBounds g (updateDonuts g).
Proof.
  intros [HW HH]. unfold allInBounds, updateDonuts.
  apply Forall_forall. intros d' Hin.
  apply list_elem_of_In, in_map_iff in Hin. destruct Hin as (d & <- & _).
  now apply updateDonut_inBounds.
Qed.

(** ** Collision scan: loops that change nothing *)

Lemma fold_left_fixed {A B} (f : A -> B -> A) (l : list B) (a : A) :
  (forall b, In b l -> f a b = a) -> fold_left f l a = a.
Proof.
  induction l as [| b l IH]; simpl; intros Hf; [reflexivity |].
  rewrite Hf by now left. apply IH. intros b' Hb'. apply Hf. now right.
Qed.

Lemma collidePair_noCollision g i j ds :
  (i < j)%nat -> noCollision g ds -> collidePair g i j ds = ds.
Proof.
  intros Hij Hno. unfold collidePair.
  destruct (ds !! i) as [d1 |] eqn:E1; [| reflexivity].
  destruct (ds !! j) as [d2 |] eqn:E2; [| reflexivity].
  now rewrite (Hno i j d1 d2 Hij E1 E2).
Qed.

Lemma handleDonutCollisions_noCollision g ds :
  noCollision g ds -> handleDonutCollisions g ds = ds.
Proof.
  intros Hno. unfold handleDonutCollisions.
  apply fold_left_fixed. intros i _. unfold collideFrom.
  apply fold_left_fixed. intros j Hj. apply in_seq in Hj.
  apply collidePair_noCollision; [lia | exact Hno].
Qed.

(** ** Collision resolver: one pair *)

Lemma sum_squares_nonneg a b : 0 <= a * a + b * b.
Proof. nra. Qed.

Lemma sqrt_aligned a : 0 <= a -> sqrt (a * a + 0 * 0) = a.
Proof.
  intros Ha. replace (a * a + 0 * 0) with (a * a) by ring.
  now apply sqrt_square.
Qed.

Lemma sqrt_sum_squares_zero a b : sqrt (a * a + b * b) = 0 -> a = 0 /\ b = 0.
Proof.
  intros H0.
  assert (Hs : a * a + b * b = 0).
  { apply sqrt_eq_0; [apply sum_squares_nonneg | exact H0]. }
  split; nra.
Qed.

(** Sums of velocities and of positions, whatever the pair and the centres
    handed to the resolver. *)
Lemma resolveCollision_sums g d1 d2 c1x c1y c2x c2y :
  let '(e1, e2) := resolveCollision g d1 d2 c1x c1y c2x c2y in
  vx e1 + vx e2 = vx d1 + vx d2 /\
  vy e1 + vy e2 = vy d1 + vy d2 /\
  x e1 + x e2 = x d1 + x d2 /\
  y e1 + y e2 = y d1 + y d2.
Proof.
  unfold resolveCollision.
  destruct (feq _ 0); simpl; destruct (fgt _ 0); simpl;
    repeat split; ring.
Qed.

(** Centres on a horizontal line, the first donut strictly on the left. *)
Lemma resolveCollision_aligned g d1 d2 :
  y d1 = y d2 -> x d1 < x d2 ->
  let r := donutWidth g / 2 in
  let overlap := 2 * r - (x d2 - x d1) in
  let dvn := vx d2 - vx d1 in
  resolveCollision g d1 d2 (x d1 + r) (y d1 + r) (x d2 + r) (y d2 + r) =
  if fgt dvn 0 then
    (mkDonut (x d1 - overlap * 0.5) (y d1) (vx d1) (vy d1)
             (rotation d1) (rotationSpeed d1),
     mkDonut (x d2 + overlap * 0.5) (y d2) (vx d2) (vy d2)
             (rotation d2) (rotationSpeed d2))
  else
    (mkDonut (x d1 - overlap * 0.5) (y d1) (vx d2) (vy d1)
             (rotation d1) (rotationSpeed d1),
     mkDonut (x d2 + overlap * 0.5) (y d2) (vx d1) (vy d2)
             (rotation d2) (rotationSpeed d2)).
Proof.
  intros Hy Hx r overlap dvn. unfold resolveCollision. fold r.
  replace (y d2 + r - (y d1 + r)) with 0 by lra.
  replace (x d2 + r - (x d1 + r)) with (x d2 - x d1) by lra.
  rewrite sqrt_aligned by lra.
  rewrite feq_false by lra.
  assert (Hn : (x d2 - x d1) / (x d2 - x d1) = 1) by (field; lra).
  rewrite Hn.
  replace (0 / (x d2 - x d1)) with 0 by (field; lra).
  replace ((vx d2 - vx d1) * 1 + (vy d2 - vy d1) * 0) with dvn
    by (unfold dvn; ring).
  replace (r * 2 - (x d2 - x d1)) with overlap by (unfold overlap; ring).
  destruct (fgt dvn 0); f_equal; f_equal; unfold dvn; lra.
Qed.

(** Coincident centres: the normal is [(1, 0)] and the patched distance [1]
    is the one the overlap is computed from. *)
Lemma resolveCollision_coincident g d1 d2 :
  x d1 = x d2 -> y d1 = y d2 ->
  let r := donutWidth g / 2 in
  let dvn := vx d2 - vx d1 in
  resolveCollision g d1 d2 (x d1 + r) (y d1 + r) (x d2 + r) (y d2 + r) =
  if fgt dvn 0 then
    (mkDonut (x d1 - (2 * r - 1) * 0.5) (y d1) (vx d1) (vy d1)
             (rotation d1) (rotationSpeed d1),
     mkDonut (x d2 + (2 * r - 1) * 0.5) (y d2) (vx d2) (vy d2)
             (rotation d2) (rotationSpeed d2))
  else
    (mkDonut (x d1 - (2 * r - 1) * 0.5) (y d1) (vx d2) (vy d1)
             (rotation d1) (rotationSpeed d1),
     mkDonut (x d2 + (2 * r - 1) * 0.5) (y d2) (vx d1) (vy d2)
             (rotation d2) (rotationSpeed d2)).
Proof.
  intros Hx Hy r dvn. unfold resolveCollision. fold r.
  replace (y d2 + r - (y d1 + r)) with 0 by lra.
  replace (x d2 + r - (x d1 + r)) with 0 by lra.
  rewrite sqrt_aligned by lra.
  rewrite feq_true by reflexivity.
  replace ((vx d2 - vx d1) * (1 / 1) + (vy d2 - vy d1) * (0 / 1)) with dvn
    by (unfold dvn; field).
  destruct (fgt dvn 0); f_equal; f_equal; unfold dvn; lra.
Qed.


Lemma areDonutsColliding_dist r d1 d2 :
  areDonutsColliding (x d1 + r) (y d1 + r) (x d2 + r) (y d2 + r) r = true <->
  dist (center r d1) (center r d2) < 2 * r.
Proof.
  unfold areDonutsColliding, dist, center; simpl.
  rewrite flt_iff. split; intros; lra.
Qed.

(** ** Collision scan: two donuts *)

Lemma collidePair_length g i j ds :
  length (collidePair g i j ds) = length ds.
Proof.
  unfold collidePair.
  destruct (ds !! i); [| reflexivity].
  destruct (ds !! j); [| reflexivity].
  destruct (areDonutsColliding _ _ _ _ _); [| reflexivity].
  destruct (resolveCollision _ _ _ _ _ _ _).
  now rewrite !length_insert.
Qed.

Lemma handleDonutCollisions_two g a b :
  let r := donutWidth g / 2 in
  handleDonutCollisions g [a; b] =
  if areDonutsColliding (x a + r) (y a + r) (x b + r) (y b + r) r then
    let '(e1, e2) := resolveCollision g a b (x a + r) (y a + r) (x b + r) (y b + r) in
    [e1; e2]
  else [a; b].
Proof.
  intros r. unfold handleDonutCollisions. simpl.
  assert (H0 : collideFrom g 0 [a; b] = collidePair g 0 1 [a; b]) by reflexivity.
  rewrite H0.
  assert (H1 : forall ds, length ds = 2%nat -> collideFrom g 1 ds = ds).
  { intros ds Hl. unfold collideFrom. now rewrite Hl. }
  rewrite H1 by now rewrite collidePair_length.
  unfold collidePair. simpl. fold r.
  destruct (areDonutsColliding _ _ _ _ r); [| reflexivity].
  destruct (resolveCollision _ _ _ _ _ _ _) as [e1 e2]. reflexivity.
Qed.

Lemma dist_aligned r d1 d2 :
  y d1 = y d2 -> x d1 <= x d2 ->
  dist (center r d1) (center r d2) = x d2 - x d1.
Proof.
  intros Hy Hx. unfold dist, center; simpl.
  replace (y d2 + r - (y d1 + r)) with 0 by lra.
  replace (x d2 + r - (x d1 + r)) with (x d2 - x d1) by lra.
  apply sqrt_aligned. lra.
Qed.

Lemma areDonutsColliding_aligned r d1 d2 :
  y d1 = y d2 -> x d1 <= x d2 ->
  areDonutsColliding (x d1 + r) (y d1 + r) (x d2 + r) (y d2 + r) r =
  flt (x d2 - x d1) (r * 2).
Proof.
  intros Hy Hx. unfold areDonutsColliding.
  change (sqrt _) with (dist (center r d1) (center r d2)).
  now rewrite dist_aligned.
Qed.

(** ** Sample runs *)

Lemma updateDonuts_grazing :
  updateDonuts (sampleGame grazing) =
  [ mkDonut 0 102 2 2 0.02 0.02; mkDonut 63.5 102 (-4.5) 2 (-0.02) (-0.02) ].
Proof.
  unfold updateDonuts, grazing, updateDonut, fge; simpl.
  fcmp. repeat (f_equal; try lra).
Qed.

Lemma tick_grazing :
  donuts (tick (sampleGame grazing)) =
  [ mkDonut (-0.25) 102 (-4.5) 2 0.02 0.02; mkDonut 63.75 102 2 2 (-0.02) (-0.02) ].
Proof.
  unfold tick. cbn [donuts setDonuts].
  rewrite updateDonuts_grazing, handleDonutCollisions_two.
  rewrite areDonutsColliding_aligned by (simpl; lra).
  rewrite resolveCollision_aligned by (simpl; lra).
  unfold fgt. simpl. fcmp.
  repeat (f_equal; try lra).
Qed.

Lemma updateDonuts_meeting :
  updateDonuts (sampleGame meeting) =
  [ mkDonut 100 100 2 2 0.02 0.02; mkDonut 100 100 (-2) 2 (-0.02) (-0.02) ].
Proof.
  unfold updateDonuts, meeting, updateDonut, fge; simpl.
  fcmp. repeat (f_equal; try lra).
Qed.

Lemma tick_meeting :
  donuts (tick (sampleGame meeting)) =
  [ mkDonut 68.5 100 (-2) 2 0.02 0.02; mkDonut 131.5 100 2 2 (-0.02) (-0.02) ].
Proof.
  unfold tick. cbn [donuts setDonuts].
  rewrite updateDonuts_meeting, handleDonutCollisions_two.
  rewrite areDonutsColliding_aligned by (simpl; lra).
  rewrite resolveCollision_coincident by (simpl; lra).
  unfold fgt. simpl. fcmp.
  repeat (f_equal; try lra).
Qed.

(** ** Collision scan: what every pass keeps *)

Lemma fold_left_invariant {A B} (P : A -> Prop) (f : A -> B -> A) (l : list B) :
  (forall a b, P a -> P (f a b)) -> forall a, P a -> P (fold_left f l a).
Proof.
  intros Hf. induction l as [| b l IH]; simpl; intros a Ha; [exact Ha |].
  apply IH, Hf, Ha.
Qed.

Lemma handleDonutCollisions_length g ds :
  length (handleDonutCollisions g ds) = length ds.
Proof.
  unfold handleDonutCollisions.
  apply (fold_left_invariant (fun acc => length acc = length ds)); [| reflexivity].
  intros acc i Hacc. unfold collideFrom.
  apply (fold_left_invariant (fun acc' => length acc' = length ds)); [| exact Hacc].
  intros acc' j Hacc'. now rewrite collidePair_length.
Qed.

Lemma total_insert f (l : list Donut) : forall i a b,
  l !! i = Some a -> total f (<[i := b]> l) = total f l - f a + f b.
Proof.
  induction l as [| c l IH]; intros i a b Hi; [discriminate Hi |].
  destruct i as [| i]; simpl in *.
  - inversion Hi; subst. lra.
  - rewrite (IH i a b Hi). lra.
Qed.

(** The two slots of a pair are distinct, so the two writes do not
    interfere and the four sums are kept by every pair step. *)
Lemma collidePair_total g i j ds :
  i <> j ->
  total vx (collidePair g i j ds) = total vx ds /\
  total vy (collidePair g i j ds) = total vy ds /\
  total x (collidePair g i j ds) = total x ds /\
  total y (collidePair g i j ds) = total y ds.
Proof.
  intros Hij. unfold collidePair.
  destruct (ds !! i) as [d1 |] eqn:E1; [| now repeat split].
  destruct (ds !! j) as [d2 |] eqn:E2; [| now repeat split].
  destruct (areDonutsColliding _ _ _ _ _); [| now repeat split].
  pose proof (resolveCollision_sums g d1 d2
                (x d1 + donutWidth g / 2) (y d1 + donutWidth g / 2)
                (x d2 + donutWidth g / 2) (y d2 + donutWidth g / 2)) as Hs.
  destruct (resolveCollision _ _ _ _ _ _ _) as [e1 e2].
  destruct Hs as (H1 & H2 & H3 & H4).
  assert (Hj : <[i := e1]> ds !! j = Some d2)
    by now rewrite list_lookup_insert_ne.
  repeat split;
    rewrite (total_insert _ _ j d2 e2 Hj), (total_insert _ _ i d1 e1 E1); lra.
Qed.

(** Total momentum and the sum of the positions are the same after the
    whole scan as before it. *)
Lemma handleDonutCollisions_total g ds :
  total vx (handleDonutCollisions g ds) = total vx ds /\
  total vy (handleDonutCollisions g ds) = total vy ds /\
  total x (handleDonutCollisions g ds) = total x ds /\
  total y (handleDonutCollisions g ds) = total y ds.
Proof.
  unfold handleDonutCollisions.
  set (P := fun acc => total vx acc = total vx ds /\ total vy acc = total vy ds /\
                       total x acc = total x ds /\ total y acc = total y ds).
  apply (fold_left_invariant P); [| now repeat split].
  intros acc i Hacc. unfold collideFrom.
  assert (Hin : forall l, (forall j, In j l -> i <> j) ->
                  forall a, P a -> P (fold_left (fun a j => collidePair g i j a) l a)).
  { induction l as [| j l IH]; simpl; intros Hl a Ha; [exact Ha |].
    apply IH; [intros j' Hj'; apply Hl; now right |].
    destruct (collidePair_total g i j a) as (H1 & H2 & H3 & H4);
      [apply Hl; now left |].
    destruct Ha as (A1 & A2 & A3 & A4). unfold P.
    rewrite H1, H2, H3, H4. now repeat split. }
  apply Hin; [| exact Hacc].
  intros j Hj. apply in_seq in Hj. lia.
Qed.

(** * The claims *)

(** ** C1: the boundary invariant *)

(** C1, as stated, fails.  On the default screen two donuts that are inside
    the bounds and do not overlap go through one call of [Update] with no
    key pressed: the first is clamped to the left edge by the integrator,
    the second reaches it, and the positional correction of the resolver
    moves the first to [x = -0.25], outside the bounds. *)
Lemma C1_tick_leaves_bounds :
  screenFits (sampleGame grazing) /\
  allInBounds (sampleGame grazing) (donuts (sampleGame grazing)) /\
  areDonutsColliding (2 + 32) (100 + 32) (68 + 32) (100 + 32) 32 = false /\
  Update noKeys (sampleGame grazing) (constRand 0) =
    Some (ErrNil, tick (sampleGame grazing), constRand 0) /\
  donuts (tick (sampleGame grazing)) =
    [ mkDonut (-0.25) 102 (-4.5) 2 0.02 0.02;
      mkDonut 63.75 102 2 2 (-0.02) (-0.02) ] /\
  ~ allInBounds (tick (sampleGame grazing)) (donuts (tick (sampleGame grazing))).
Proof.
  split; [| split; [| split; [| split; [| split]]]].
  - unfold screenFits; simpl; lra.
  - unfold allInBounds, grazing, inBounds; simpl.
    repeat constructor; simpl; lra.
  - pose proof (areDonutsColliding_aligned 32 (mkDonut 2 100 (-2) 2 0 0.02)
                  (mkDonut 68 100 (-4.5) 2 0 (-0.02))) as Hc.
    cbn [x y] in Hc. rewrite Hc by lra.
    apply flt_false. lra.
  - reflexivity.
  - exact tick_grazing.
  - rewrite tick_grazing. unfold allInBounds. intros Hall.
    inversion Hall as [| d l [[Hx _] _] _]. simpl in Hx. lra.
Qed.

(** C1, amended: when the screen is at least as large as a body, every
    donut satisfies [0 <= x <= screenWidth - donutWidth] and
    [0 <= y <= screenHeight - donutHeight] after the integrator pass of a
    tick, whatever its position before; and after the whole tick when the
    resolver finds no colliding pair among the integrated donuts. *)
Theorem C1_integrator_keeps_bounds :
  forall g : Game,
    screenFits g ->
    allInBounds g (updateDonuts g) /\
    (noCollision g (updateDonuts g) ->
     allInBounds (tick g) (donuts (tick g))).
Proof.
  intros g Hfit. split.
  - now apply updateDonuts_inBounds.
  - intros Hno. unfold tick. cbn [donuts setDonuts].
    rewrite handleDonutCollisions_noCollision by exact Hno.
    change (allInBounds g (updateDonuts g)).
    now apply updateDonuts_inBounds.
Qed.

Lemma C1_integrator_keeps_bounds_witness :
  allInBounds (sampleGame [mkDonut 2 100 (-2) 2 0 0.02])
              (updateDonuts (sampleGame [mkDonut 2 100 (-2) 2 0 0.02])) /\
  allInBounds (tick (sampleGame [mkDonut 2 100 (-2) 2 0 0.02]))
              (donuts (tick (sampleGame [mkDonut 2 100 (-2) 2 0 0.02]))).
Proof.
  assert (Hfit : screenFits (sampleGame [mkDonut 2 100 (-2) 2 0 0.02])).
  { unfold screenFits; simpl; lra. }
  destruct (C1_integrator_keeps_bounds _ Hfit) as [H1 H2].
  split; [exact H1 |].
  apply H2. intros i j d1 d2 Hij Hi Hj.
  destruct j as [| j]; [lia | discriminate Hj].
Defined.

(** ** C2: head-on collision of two equal bodies *)

(** C2: two donuts with centres on one horizontal line, the first on the
    left.  Approaching with [vx1 = 2], [vx2 = -2], the resolver reverses
    both: [vx1' = -2], [vx2' = 2], the vertical velocities untouched.
    Separating with [vx1 = -2], [vx2 = 2] (so [dvn = 4 > 0]), both
    velocities are left as they are, and the positional correction by half
    the overlap [2 * radius - distance] each is applied all the same. *)
Theorem C2_head_on_collision :
  forall (g : Game) (d1 d2 : Donut),
    y d1 = y d2 -> x d1 < x d2 ->
    let r := donutWidth g / 2 in
    let res := resolveCollision g d1 d2 (x d1 + r) (y d1 + r) (x d2 + r) (y d2 + r) in
    let overlap := 2 * r - dist (center r d1) (center r d2) in
    (vx d1 = 2 -> vx d2 = -2 ->
       vx (fst res) = -2 /\ vx (snd res) = 2 /\
       vy (fst res) = vy d1 /\ vy (snd res) = vy d2) /\
    (vx d1 = -2 -> vx d2 = 2 ->
       vx (fst res) = -2 /\ vx (snd res) = 2 /\
       vy (fst res) = vy d1 /\ vy (snd res) = vy d2 /\
       x (fst res) = x d1 - overlap * 0.5 /\ y (fst res) = y d1 /\
       x (snd res) = x d2 + overlap * 0.5 /\ y (snd res) = y d2).
Proof.
  intros g d1 d2 Hy Hx r res overlap.
  unfold overlap. rewrite dist_aligned by lra.
  unfold res, r. rewrite resolveCollision_aligned by assumption.
  split; intros H1 H2; unfold fgt; rewrite H1, H2.
  - rewrite flt_false by lra. simpl. repeat split; lra.
  - rewrite flt_true by lra. simpl. repeat split; lra.
Qed.

Lemma C2_head_on_collision_witness :
  (let res := resolveCollision (sampleGame []) (mkDonut 100 100 2 0 0 0)
                (mkDonut 130 100 (-2) 0 0 0)
                (100 + 64 / 2) (100 + 64 / 2) (130 + 64 / 2) (100 + 64 / 2) in
   vx (fst res) = -2 /\ vx (snd res) = 2) /\
  (let res := resolveCollision (sampleGame []) (mkDonut 100 100 (-2) 0 0 0)
                (mkDonut 130 100 2 0 0 0)
                (100 + 64 / 2) (100 + 64 / 2) (130 + 64 / 2) (100 + 64 / 2) in
   vx (fst res) = -2 /\ vx (snd res) = 2 /\ x (fst res) = 83 /\ x (snd res) = 147).
Proof.
  split.
  - destruct (C2_head_on_collision (sampleGame []) (mkDonut 100 100 2 0 0 0)
                (mkDonut 130 100 (-2) 0 0 0)) as [Happroach _];
      [reflexivity | simpl; lra |].
    destruct Happroach as (H1 & H2 & _); [reflexivity | reflexivity |].
    split; assumption.
  - destruct (C2_head_on_collision (sampleGame []) (mkDonut 100 100 (-2) 0 0 0)
                (mkDonut 130 100 2 0 0 0)) as [_ Hsep];
      [reflexivity | simpl; lra |].
    destruct Hsep as (H1 & H2 & _ & _ & H5 & _ & H7 & _);
      [reflexivity | reflexivity |].
    rewrite dist_aligned in H5, H7 by (simpl; lra).
    simpl in H5, H7.
    repeat split; try assumption; lra.
Defined.

(** ** C3: the collision predicate *)

(** C3: a pair of donuts of radius [r] is reported colliding exactly when
    the Euclidean distance between their centres (position plus [(r, r)])
    is strictly below [2 * r]; centres [2 * r - 0.01] apart collide, centres
    [2 * r + 0.01] apart do not; and the scan leaves a pair that is not
    reported colliding untouched. *)
Theorem C3_collision_predicate :
  forall (r : R) (d1 d2 : Donut),
    let colliding :=
      areDonutsColliding (x d1 + r) (y d1 + r) (x d2 + r) (y d2 + r) r in
    (colliding = true <-> dist (center r d1) (center r d2) < 2 * r) /\
    (dist (center r d1) (center r d2) = 2 * r - 0.01 -> colliding = true) /\
    (dist (center r d1) (center r d2) = 2 * r + 0.01 -> colliding = false) /\
    (forall (g : Game) (i j : nat) (ds : list Donut),
       donutWidth g / 2 = r -> ds !! i = Some d1 -> ds !! j = Some d2 ->
       colliding = false -> collidePair g i j ds = ds).
Proof.
  intros r d1 d2 colliding.
  pose proof (areDonutsColliding_dist r d1 d2) as Hiff. fold colliding in Hiff.
  split; [exact Hiff |]. split; [| split].
  - intros Hd. apply Hiff. lra.
  - intros Hd. destruct colliding eqn:E; [| reflexivity].
    assert (dist (center r d1) (center r d2) < 2 * r) by now apply Hiff.
    lra.
  - intros g i j ds Hr Hi Hj Hc. unfold collidePair.
    rewrite Hi, Hj, Hr. fold colliding. now rewrite Hc.
Qed.

Lemma C3_collision_predicate_witness :
  areDonutsColliding (0 + 32) (0 + 32) (63.99 + 32) (0 + 32) 32 = true /\
  areDonutsColliding (0 + 32) (0 + 32) (64.01 + 32) (0 + 32) 32 = false.
Proof.
  split.
  - apply (C3_collision_predicate 32 (mkDonut 0 0 0 0 0 0) (mkDonut 63.99 0 0 0 0 0)).
    rewrite dist_aligned by (simpl; lra). simpl. lra.
  - apply (C3_collision_predicate 32 (mkDonut 0 0 0 0 0 0) (mkDonut 64.01 0 0 0 0 0)).
    rewrite dist_aligned by (simpl; lra). simpl. lra.
Defined.

(** ** C4: coincident centres *)

(** C4, at the input where the code departs from it.  The integrator puts
    the two donuts of [meeting] on the same spot [(100, 100)], so their
    centres are at distance 0.  The resolver takes the normal [(1, 0)] and
    returns normally, but it computes the overlap from the patched distance
    1: each body moves by [(2 * 32 - 1) * 0.5 = 31.5], to [x = 68.5] and
    [x = 131.5], not by half of [2 * 32 - 0] to 68 and 132, and the two are
    still reported colliding afterwards. *)
Theorem C4_coincident_centres_overlap :
  updateDonuts (sampleGame meeting) =
    [ mkDonut 100 100 2 2 0.02 0.02; mkDonut 100 100 (-2) 2 (-0.02) (-0.02) ] /\
  dist (center 32 (mkDonut 100 100 2 2 0.02 0.02))
       (center 32 (mkDonut 100 100 (-2) 2 (-0.02) (-0.02))) = 0 /\
  donuts (tick (sampleGame meeting)) =
    [ mkDonut 68.5 100 (-2) 2 0.02 0.02; mkDonut 131.5 100 2 2 (-0.02) (-0.02) ] /\
  68.5 <> 100 - (2 * 32 - 0) * 0.5 /\
  areDonutsColliding (68.5 + 32) (100 + 32) (131.5 + 32) (100 + 32) 32 = true.
Proof.
  split; [exact updateDonuts_meeting |].
  split; [rewrite dist_aligned; simpl; lra |].
  split; [exact tick_meeting |].
  split; [lra |].
  pose proof (areDonutsColliding_aligned 32 (mkDonut 68.5 100 (-2) 2 0.02 0.02)
                (mkDonut 131.5 100 2 2 (-0.02) (-0.02))) as Hc.
  cbn [x y] in Hc. rewrite Hc by lra.
  apply flt_true. lra.
Qed.

(** ** C7: edge reflection *)

(** C7: one call of [Update] of [main.go] with the escape key not pressed
    advances every donut by the integrator.  On each axis, independently of
    the other: when the moved position is at or below 0 the position
    becomes 0 and the velocity component changes sign; otherwise, when it is
    at or above the far bound ([screenWidth - donutWidth], resp.
    [screenHeight - donutHeight]) the position becomes exactly that bound
    and the velocity component changes sign; otherwise the donut just
    moves.  In particular [x = 0], [vx = -2] gives [x = 0], [vx = 2]. *)
Theorem C7_edge_reflection :
  forall (inp : Input) (g : MainGo.Game) (i : nat) (d : Donut),
    inp KeyEscape = false ->
    MainGo.donuts g !! i = Some d ->
    exists d',
      MainGo.donuts (snd (MainGo.Update inp g)) !! i = Some d' /\
      axisBounce (IZR (MainGo.screenWidth g) - MainGo.donutWidth g)
                 (x d) (vx d) (x d') (vx d') /\
      axisBounce (IZR (MainGo.screenHeight g) - MainGo.donutHeight g)
                 (y d) (vy d) (y d') (vy d') /\
      (x d = 0 -> vx d = -2 -> x d' = 0 /\ vx d' = 2).
Proof.
  intros inp g i d Hesc Hi.
  exists (updateDonut (MainGo.screenWidth g) (MainGo.screenHeight g)
                      (MainGo.donutWidth g) (MainGo.donutHeight g) d).
  split; [| split; [| split]].
  - unfold MainGo.Update. rewrite Hesc. simpl.
    now rewrite list_lookup_fmap, Hi.
  - apply updateDonut_x.
  - apply updateDonut_y.
  - intros Hx Hv.
    destruct (updateDonut_x (MainGo.screenWidth g) (MainGo.screenHeight g)
                (MainGo.donutWidth g) (MainGo.donutHeight g) d) as [Hlow _].
    destruct Hlow as [Hp Hq]; [lra |]. rewrite Hp, Hq, Hv. split; lra.
Qed.

Lemma C7_edge_reflection_witness :
  exists d',
    MainGo.donuts
      (snd (MainGo.Update noKeys
              (MainGo.mkGame 64 64 [mkDonut 0 100 (-2) 2 0 0.02] 800 600)))
      !! 0%nat = Some d' /\
    x d' = 0 /\ vx d' = 2 /\ y d' = 102 /\ vy d' = 2.
Proof.
  destruct (C7_edge_reflection noKeys
              (MainGo.mkGame 64 64 [mkDonut 0 100 (-2) 2 0 0.02] 800 600)
              0%nat (mkDonut 0 100 (-2) 2 0 0.02) eq_refl eq_refl)
    as (d' & Hd' & _ & Hy & Hx).
  exists d'. split; [exact Hd' |].
  destruct Hx as [Hx1 Hx2]; [reflexivity | reflexivity |].
  destruct Hy as (_ & _ & Hy).
  destruct Hy as [Hy1 Hy2]; [simpl; lra |].
  simpl in Hy1. repeat split; try assumption; lra.
Defined.

(** ** C9: conservation of momentum in the resolver *)

(** C9: whatever pair the resolver processes, the sum of the two velocities
    is the same after the velocity update as before, on both axes, and the
    positional correction moves the two positions by opposite amounts, so
    the sum of the two positions is the same as well. *)
Theorem C9_momentum_conserved :
  forall (g : Game) (d1 d2 : Donut) (center1X center1Y center2X center2Y : R),
    let res := resolveCollision g d1 d2 center1X center1Y center2X center2Y in
    vx (fst res) + vx (snd res) = vx d1 + vx d2 /\
    vy (fst res) + vy (snd res) = vy d1 + vy d2 /\
    x (fst res) - x d1 = - (x (snd res) - x d2) /\
    y (fst res) - y d1 = - (y (snd res) - y d2) /\
    x (fst res) + x (snd res) = x d1 + x d2 /\
    y (fst res) + y (snd res) = y d1 + y d2.
Proof.
  intros g d1 d2 c1x c1y c2x c2y res.
  pose proof (resolveCollision_sums g d1 d2 c1x c1y c2x c2y) as H.
  fold res in H. destruct res as [e1 e2]. simpl.
  destruct H as (H1 & H2 & H3 & H4). repeat split; lra.
Qed.

(** ** Spawner *)

Lemma createLoop_length W H w h n : forall i r,
  length (fst (createLoop W H w h i n r)) = n.
Proof.
  induction n as [| n IH]; intros i r; [reflexivity |].
  simpl. unfold bind at 1.
  destruct (createDonut W H w h i r) as [d r1].
  unfold bind at 1.
  specialize (IH (S i) r1).
  destruct (createLoop W H w h (S i) n r1) as [ds r2].
  simpl in *. now rewrite IH.
Qed.

Lemma createDonuts_some W H w h (n : Z) r :
  (0 <= n)%Z ->
  createDonuts W H w h n r = Some (createLoop W H w h 0 (Z.to_nat n) r).
Proof.
  intros Hn. unfold createDonuts.
  destruct (Z.ltb_spec n 0); [lia | reflexivity].
Qed.

Lemma createDonuts_negative W H w h (n : Z) r :
  (n < 0)%Z -> createDonuts W H w h n r = None.
Proof.
  intros Hn. unfold createDonuts.
  destruct (Z.ltb_spec n 0); [reflexivity | lia].
Qed.

Lemma createDonuts_length W H w h (n : Z) r :
  (0 <= n)%Z ->
  exists ds r', createDonuts W H w h n r = Some (ds, r') /\
                Z.of_nat (length ds) = n.
Proof.
  intros Hn. rewrite createDonuts_some by exact Hn.
  pose proof (createLoop_length W H w h (Z.to_nat n) 0 r) as Hl.
  destruct (createLoop W H w h 0 (Z.to_nat n) r) as [ds r'].
  exists ds, r'. split; [reflexivity |]. simpl in Hl. lia.
Qed.

(** ** C5: adjusting the count *)

(** C5: an increase request at [numDonuts = maxDonuts = 50] and a decrease
    request at [numDonuts = minDonuts = 1] leave the game, count and donuts
    included, as it is.  An increase request below the maximum (resp. a
    decrease request above the minimum) on a count in range changes the
    count by exactly one and replaces the donuts by what [createDonuts]
    makes for the new count, a list of that length that does not depend on
    the old donuts. *)
Theorem C5_count_adjustment :
  forall (inp : Input) (g : Game) (r : Rand),
    (plusPressed inp = true -> numDonuts g = maxDonuts ->
       handlePlus inp g r = Some (g, r)) /\
    (minusPressed inp = true -> numDonuts g = minDonuts ->
       handleMinus inp g r = Some (g, r)) /\
    (plusPressed inp = true ->
     (minDonuts <= numDonuts g < maxDonuts)%Z ->
       exists ds r',
         createDonuts (screenWidth g) (screenHeight g) (donutWidth g)
                      (donutHeight g) (numDonuts g + 1) r = Some (ds, r') /\
         handlePlus inp g r =
           Some (respawned g (screenWidth g) (screenHeight g)
                           (numDonuts g + 1) ds, r') /\
         Z.of_nat (length ds) = (numDonuts g + 1)%Z) /\
    (minusPressed inp = true ->
     (minDonuts < numDonuts g <= maxDonuts)%Z ->
       exists ds r',
         createDonuts (screenWidth g) (screenHeight g) (donutWidth g)
                      (donutHeight g) (numDonuts g - 1) r = Some (ds, r') /\
         handleMinus inp g r =
           Some (respawned g (screenWidth g) (screenHeight g)
                           (numDonuts g - 1) ds, r') /\
         Z.of_nat (length ds) = (numDonuts g - 1)%Z).
Proof.
  intros inp g r. unfold plusPressed, minusPressed, minDonuts, maxDonuts.
  split; [| split; [| split]].
  - intros Hp Hn. unfold handlePlus. rewrite Hp, Hn. reflexivity.
  - intros Hm Hn. unfold handleMinus. rewrite Hm, Hn. reflexivity.
  - intros Hp Hn.
    destruct (createDonuts_length (screenWidth g) (screenHeight g)
                (donutWidth g) (donutHeight g) (numDonuts g + 1) r)
      as (ds & r' & Hc & Hl); [lia |].
    exists ds, r'. split; [exact Hc |]. split; [| exact Hl].
    unfold handlePlus. rewrite Hp.
    destruct (Z.ltb_spec (numDonuts g) maxDonuts) as [_ | Hge];
      [| unfold maxDonuts in Hge; lia].
    cbn [screenWidth screenHeight donutWidth donutHeight numDonuts setNumDonuts].
    rewrite Hc. reflexivity.
  - intros Hm Hn.
    destruct (createDonuts_length (screenWidth g) (screenHeight g)
                (donutWidth g) (donutHeight g) (numDonuts g - 1) r)
      as (ds & r' & Hc & Hl); [lia |].
    exists ds, r'. split; [exact Hc |]. split; [| exact Hl].
    unfold handleMinus. rewrite Hm.
    destruct (Z.gtb_spec (numDonuts g) minDonuts) as [_ | Hle];
      [| unfold minDonuts in Hle; lia].
    cbn [screenWidth screenHeight donutWidth donutHeight numDonuts setNumDonuts].
    rewrite Hc. reflexivity.
Qed.

Lemma C5_count_adjustment_witness :
  handlePlus plusKey (mkGame 64 64 grazing 800 600 50 0) (constRand 0) =
    Some (mkGame 64 64 grazing 800 600 50 0, constRand 0) /\
  handleMinus minusKey (mkGame 64 64 grazing 800 600 1 0) (constRand 0) =
    Some (mkGame 64 64 grazing 800 600 1 0, constRand 0) /\
  (exists ds r',
     handlePlus plusKey (sampleGame grazing) (constRand 0) =
       Some (mkGame 64 64 ds 800 600 3 0, r') /\
     Z.of_nat (length ds) = 3%Z) /\
  (exists ds r',
     handleMinus minusKey (sampleGame grazing) (constRand 0) =
       Some (mkGame 64 64 ds 800 600 1 0, r') /\
     Z.of_nat (length ds) = 1%Z).
Proof.
  split; [| split; [| split]].
  - destruct (C5_count_adjustment plusKey (mkGame 64 64 grazing 800 600 50 0)
                (constRand 0)) as (Hmax & _).
    apply Hmax; reflexivity.
  - destruct (C5_count_adjustment minusKey (mkGame 64 64 grazing 800 600 1 0)
                (constRand 0)) as (_ & Hmin & _).
    apply Hmin; reflexivity.
  - destruct (C5_count_adjustment plusKey (sampleGame grazing) (constRand 0))
      as (_ & _ & Hplus & _).
    destruct Hplus as (ds & r' & _ & Hh & Hl);
      [reflexivity | unfold minDonuts, maxDonuts; simpl; lia |].
    exists ds, r'. split; [exact Hh | exact Hl].
  - destruct (C5_count_adjustment minusKey (sampleGame grazing) (constRand 0))
      as (_ & _ & _ & Hminus).
    destruct Hminus as (ds & r' & _ & Hh & Hl);
      [reflexivity | unfold minDonuts, maxDonuts; simpl; lia |].
    exists ds, r'. split; [exact Hh | exact Hl].
Defined.

(** A request that is out of range leaves [Update] with the steady-state
    tick only. *)
Lemma Update_ignored_request inp g r :
  inp KeyEscape = false ->
  (plusPressed inp = false \/ numDonuts g = maxDonuts) ->
  (minusPressed inp = false \/ numDonuts g = minDonuts) ->
  Update inp g r = Some (ErrNil, tick g, r).
Proof.
  intros Hesc Hp Hm. unfold Update. rewrite Hesc.
  assert (H1 : handlePlus inp g r = Some (g, r)).
  { unfold handlePlus. fold (plusPressed inp).
    destruct Hp as [-> | ->]; [reflexivity |].
    now destruct (plusPressed inp). }
  assert (H2 : handleMinus inp g r = Some (g, r)).
  { unfold handleMinus. fold (minusPressed inp).
    destruct Hm as [-> | ->]; [reflexivity |].
    now destruct (minusPressed inp). }
  rewrite H1. simpl. rewrite H2. reflexivity.
Qed.

(** ** C10: resize *)

(** C10: [Layout] called with the current screen width and height returns
    them and changes nothing: same donuts, same count, same screen, and no
    draw is taken from the random source.  Called with a different width or
    height it stores the new dimensions and replaces the donuts by a fresh
    [createDonuts] for the new screen at the current count (in [main.go],
    at the fixed count 6). *)
Theorem C10_resize :
  forall (g : Game) (g' : MainGo.Game) (r : Rand) (outsideWidth outsideHeight : Z),
    (outsideWidth = screenWidth g -> outsideHeight = screenHeight g ->
       Layout outsideWidth outsideHeight g r =
         Some (outsideWidth, outsideHeight, g, r)) /\
    (outsideWidth = MainGo.screenWidth g' ->
     outsideHeight = MainGo.screenHeight g' ->
       MainGo.Layout outsideWidth outsideHeight g' r =
         (outsideWidth, outsideHeight, g', r)) /\
    (outsideWidth <> screenWidth g \/ outsideHeight <> screenHeight g ->
     (0 <= numDonuts g)%Z ->
       exists ds r',
         createDonuts outsideWidth outsideHeight (donutWidth g) (donutHeight g)
                      (numDonuts g) r = Some (ds, r') /\
         Layout outsideWidth outsideHeight g r =
           Some (outsideWidth, outsideHeight,
                 respawned g outsideWidth outsideHeight (numDonuts g) ds, r') /\
         Z.of_nat (length ds) = numDonuts g) /\
    (outsideWidth <> MainGo.screenWidth g' \/
     outsideHeight <> MainGo.screenHeight g' ->
       exists ds r',
         MainGo.createDonuts outsideWidth outsideHeight (MainGo.donutWidth g')
                             (MainGo.donutHeight g') r = (ds, r') /\
         MainGo.Layout outsideWidth outsideHeight g' r =
           (outsideWidth, outsideHeight,
            MainGo.mkGame (MainGo.donutWidth g') (MainGo.donutHeight g') ds
                          outsideWidth outsideHeight, r') /\
         Z.of_nat (length ds) = MainGo.numDonuts).
Proof.
  intros g g' r W H. split; [| split; [| split]].
  - intros -> ->. unfold Layout. now rewrite !Z.eqb_refl.
  - intros -> ->. unfold MainGo.Layout. now rewrite !Z.eqb_refl.
  - intros Hne Hn.
    destruct (createDonuts_length W H (donutWidth g) (donutHeight g)
                (numDonuts g) r Hn) as (ds & r' & Hc & Hl).
    exists ds, r'. split; [exact Hc |]. split; [| exact Hl].
    unfold Layout.
    assert (Hb : negb (screenWidth g =? W)%Z || negb (screenHeight g =? H)%Z = true).
    { destruct Hne as [Hw | Hh].
      - apply orb_true_iff. left. apply negb_true_iff, Z.eqb_neq. congruence.
      - apply orb_true_iff. right. apply negb_true_iff, Z.eqb_neq. congruence. }
    rewrite Hb.
    cbn [screenWidth screenHeight donutWidth donutHeight numDonuts setScreen].
    rewrite Hc. reflexivity.
  - intros Hne.
    pose proof (createLoop_length W H (MainGo.donutWidth g') (MainGo.donutHeight g')
                  (Z.to_nat MainGo.numDonuts) 0 r) as Hl.
    unfold MainGo.Layout, MainGo.createDonuts.
    assert (Hb : negb (MainGo.screenWidth g' =? W)%Z
                 || negb (MainGo.screenHeight g' =? H)%Z = true).
    { destruct Hne as [Hw | Hh].
      - apply orb_true_iff. left. apply negb_true_iff, Z.eqb_neq. congruence.
      - apply orb_true_iff. right. apply negb_true_iff, Z.eqb_neq. congruence. }
    rewrite Hb.
    destruct (createLoop W H _ _ 0 (Z.to_nat MainGo.numDonuts) r) as [ds r'].
    exists ds, r'. split; [reflexivity |]. split; [reflexivity |].
    simpl in Hl. rewrite Hl. reflexivity.
Qed.

Lemma C10_resize_witness :
  Layout 800 600 (sampleGame grazing) (constRand 0) =
    Some (800%Z, 600%Z, sampleGame grazing, constRand 0) /\
  MainGo.Layout 800 600 (MainGo.mkGame 64 64 grazing 800 600) (constRand 0) =
    (800%Z, 600%Z, MainGo.mkGame 64 64 grazing 800 600, constRand 0) /\
  (exists ds r',
     Layout 1024 768 (sampleGame grazing) (constRand 0) =
       Some (1024%Z, 768%Z, mkGame 64 64 ds 1024 768 2 0, r') /\
     Z.of_nat (length ds) = 2%Z) /\
  (exists ds r',
     MainGo.Layout 1024 768 (MainGo.mkGame 64 64 grazing 800 600) (constRand 0) =
       (1024%Z, 768%Z, MainGo.mkGame 64 64 ds 1024 768, r') /\
     Z.of_nat (length ds) = 6%Z).
Proof.
  destruct (C10_resize (sampleGame grazing) (MainGo.mkGame 64 64 grazing 800 600)
              (constRand 0) 800 600) as (Hsame & Hsame' & _).
  destruct (C10_resize (sampleGame grazing) (MainGo.mkGame 64 64 grazing 800 600)
              (constRand 0) 1024 768) as (_ & _ & Hnew & Hnew').
  split; [apply Hsame; reflexivity |].
  split; [apply Hsame'; reflexivity |].
  split.
  - destruct Hnew as (ds & r' & _ & HL & Hl);
      [left; simpl; lia | simpl; lia |].
    exists ds, r'. split; [exact HL | exact Hl].
  - destruct Hnew' as (ds & r' & _ & HL & Hl); [left; simpl; lia |].
    exists ds, r'. split; [exact HL | exact Hl].
Defined.

(** ** C6: the spawner *)

Lemma createDonut_spec W H w h i r :
  let p := spawnXY W H w h (stream r (cursor r)) (stream r (S (cursor r))) in
  x (fst (createDonut W H w h i r)) = clampSpawn W w (fst p) /\
  y (fst (createDonut W H w h i r)) = clampSpawn H h (snd p) /\
  snd (createDonut W H w h i r) = mkRand (stream r) (cursor r + 8).
Proof.
  unfold createDonut, bind, Float64, ret, spawnXY. simpl.
  repeat split. f_equal. lia.
Qed.

Lemma createLoop_lookup W H w h n : forall i r k d,
  fst (createLoop W H w h i n r) !! k = Some d ->
  d = fst (createDonut W H w h (i + k) (mkRand (stream r) (cursor r + 8 * k))).
Proof.
  induction n as [| n IH]; intros i r k d Hk; [discriminate Hk |].
  simpl in Hk. unfold bind at 1 in Hk.
  pose proof (createDonut_spec W H w h i r) as (_ & _ & Hr).
  destruct (createDonut W H w h i r) as [d0 r1] eqn:E0.
  unfold bind at 1 in Hk.
  destruct (createLoop W H w h (S i) n r1) as [ds r2] eqn:E1.
  simpl in Hk, Hr. destruct k as [| k].
  - inversion Hk; subst d0.
    replace (mkRand (stream r) (cursor r + 8 * 0)) with r
      by (destruct r; simpl; f_equal; lia).
    rewrite Nat.add_0_r, E0. reflexivity.
  - simpl in Hk.
    assert (Hk' : fst (createLoop W H w h (S i) n r1) !! k = Some d)
      by now rewrite E1.
    apply IH in Hk'. rewrite Hk', Hr. cbn [stream cursor].
    replace (S i + k)%nat with (i + S k)%nat by lia.
    replace (cursor r + 8 + 8 * k)%nat with (cursor r + 8 * S k)%nat by lia.
    reflexivity.
Qed.

Lemma sqrt_polar c s d :
  s * s + c * c = 1 -> 0 <= d -> sqrt (c * d * (c * d) + s * d * (s * d)) = d.
Proof.
  intros Hcs Hd.
  replace (c * d * (c * d) + s * d * (s * d)) with ((s * s + c * c) * (d * d)) by ring.
  rewrite Hcs, Rmult_1_l. now apply sqrt_square.
Qed.

Lemma spawnRadius_nonneg W H : (0 <= W)%Z -> (0 <= H)%Z -> 0 <= spawnRadius W H.
Proof.
  intros HW HH. apply IZR_le in HW, HH. unfold spawnRadius, Rmin.
  destruct (Rle_dec (IZR W) (IZR H)); lra.
Qed.

(** The centre of the freshly placed body is in the spawn disk. *)
Lemma spawnXY_center_within W H w h u1 u2 :
  (0 <= W)%Z -> (0 <= H)%Z -> 0 <= u2 < 1 ->
  dist (screenCenter W H) (bodyCenter w h (spawnXY W H w h u1 u2)) <= spawnRadius W H.
Proof.
  intros HW HH Hu.
  pose proof (spawnRadius_nonneg W H HW HH) as Hrad.
  unfold dist, screenCenter, bodyCenter, spawnXY; simpl.
  set (rad := Rmin (IZR W) (IZR H) * 0.25).
  assert (Hrad' : rad = spawnRadius W H) by (unfold rad, spawnRadius; ring).
  set (a := u1 * 2 * PI).
  replace (IZR W / 2 + cos a * (u2 * rad) - w / 2 + w / 2 - IZR W / 2)
    with (cos a * (u2 * rad)) by ring.
  replace (IZR H / 2 + sin a * (u2 * rad) - h / 2 + h / 2 - IZR H / 2)
    with (sin a * (u2 * rad)) by ring.
  rewrite sqrt_polar.
  - rewrite Hrad'. nra.
  - pose proof (sin2_cos2 a) as Hsc. unfold Rsqr in Hsc. exact Hsc.
  - rewrite Hrad'. nra.
Qed.

Lemma clampSpawn_bounds screen size p :
  size <= IZR screen -> 0 <= clampSpawn screen size p <= IZR screen - size.
Proof.
  intros Hs. unfold clampSpawn, fgt. fcases; lra.
Qed.

Lemma Rmin_800_600 : Rmin 800 600 = 600.
Proof. unfold Rmin. destruct (Rle_dec 800 600); lra. Qed.

Lemma preClamp_wideRand : preClamp 800 600 64 64 wideRand 0 = (233, 268).
Proof.
  unfold preClamp, spawnXY, wideRand; simpl.
  replace (0.5 * 2 * PI) with PI by lra.
  rewrite cos_PI, sin_PI, Rmin_800_600. f_equal; lra.
Qed.

(** C6, as stated, fails.  On the default screen with a body of 64 by 64
    and a source whose draws are 0.5 (angle [PI]) and then 0.9, the position
    of the only donut before the clamp is [(233, 268)]: its distance to the
    screen centre [(400, 300)] is above 167, the spawn radius is 150. *)
Lemma C6_position_outside_spawn_disk :
  rand_ok wideRand /\
  (exists d r', createDonuts 800 600 64 64 1 wideRand = Some ([d], r')) /\
  preClamp 800 600 64 64 wideRand 0 = (233, 268) /\
  spawnRadius 800 600 = 150 /\
  ~ dist (screenCenter 800 600) (preClamp 800 600 64 64 wideRand 0)
      <= spawnRadius 800 600.
Proof.
  assert (Hrad : spawnRadius 800 600 = 150).
  { unfold spawnRadius. rewrite Rmin_800_600. lra. }
  split; [| split; [| split; [| split]]].
  - intros k. unfold wideRand; simpl. destruct k; lra.
  - unfold createDonuts. simpl. unfold bind at 1.
    destruct (createDonut 800 600 64 64 0 wideRand) as [d r']. unfold bind, ret.
    now exists d, r'.
  - exact preClamp_wideRand.
  - exact Hrad.
  - rewrite preClamp_wideRand, Hrad. unfold dist, screenCenter; simpl.
    intros Hle.
    set (A := (233 - 800 / 2) * (233 - 800 / 2) + (268 - 600 / 2) * (268 - 600 / 2)) in *.
    assert (HA : 0 <= A) by (unfold A; lra).
    pose proof (sqrt_sqrt A HA) as Hs.
    pose proof (sqrt_pos A) as Hp.
    assert (HA' : A = 28913) by (unfold A; lra).
    nra.
Qed.

(** C6, amended: [createDonuts] returns exactly [count] donuts for every
    count that is not negative (a negative count makes it panic).  Before
    the clamp the centre of each body (its position plus half the body
    size) lies within [spawnRadius = 0.25 * min(screenWidth, screenHeight)]
    of the screen centre, for a source that keeps the contract of
    [rand.Float64] and a screen whose sides are not negative.  Each donut's
    position is the clamp of the drawn position, and lies in
    [[0, screenWidth - donutWidth]] by [[0, screenHeight - donutHeight]]
    when the screen is at least as large as a body. *)
Theorem C6_spawner :
  forall (screenWidth screenHeight : Z) (donutWidth donutHeight : R)
         (count : Z) (r : Rand),
    ((count < 0)%Z ->
       createDonuts screenWidth screenHeight donutWidth donutHeight count r = None) /\
    ((0 <= count)%Z ->
       exists ds r',
         createDonuts screenWidth screenHeight donutWidth donutHeight count r
           = Some (ds, r') /\
         Z.of_nat (length ds) = count /\
         forall (k : nat) (d : Donut),
           ds !! k = Some d ->
           let p := preClamp screenWidth screenHeight donutWidth donutHeight r k in
           (rand_ok r -> (0 <= screenWidth)%Z -> (0 <= screenHeight)%Z ->
            dist (screenCenter screenWidth screenHeight)
                 (bodyCenter donutWidth donutHeight p)
              <= spawnRadius screenWidth screenHeight) /\
           x d = clampSpawn screenWidth donutWidth (fst p) /\
           y d = clampSpawn screenHeight donutHeight (snd p) /\
           (donutWidth <= IZR screenWidth -> donutHeight <= IZR screenHeight ->
            inBounds screenWidth screenHeight donutWidth donutHeight d)).
Proof.
  intros W H w h count r. split.
  - now apply createDonuts_negative.
  - intros Hc.
    rewrite createDonuts_some by exact Hc.
    pose proof (createLoop_length W H w h (Z.to_nat count) 0 r) as Hl.
    pose proof (createLoop_lookup W H w h (Z.to_nat count) 0 r) as Hlk.
    destruct (createLoop W H w h 0 (Z.to_nat count) r) as [ds r'].
    cbn [fst] in Hl, Hlk.
    exists ds, r'. split; [reflexivity |]. split; [lia |].
    intros k d Hk p.
    apply Hlk in Hk. change (0 + k)%nat with k in Hk.
    pose proof (createDonut_spec W H w h k (mkRand (stream r) (cursor r + 8 * k)))
      as (Hx & Hy & _).
    cbn [stream cursor] in Hx, Hy.
    replace (S (cursor r + 8 * k)) with (cursor r + 8 * k + 1)%nat in Hx, Hy by lia.
    fold (preClamp W H w h r k) in Hx, Hy. fold p in Hx, Hy.
    rewrite <- Hk in Hx, Hy.
    split; [| split; [exact Hx | split; [exact Hy |]]].
    + intros Hr HW HH.
      unfold p, preClamp. apply spawnXY_center_within; try assumption. apply Hr.
    + intros Hw Hh. unfold inBounds. rewrite Hx, Hy.
      split; now apply clampSpawn_bounds.
Qed.

Lemma C6_spawner_witness :
  createDonuts 800 600 64 64 (-1) wideRand = None /\
  exists ds r',
    createDonuts 800 600 64 64 1 wideRand = Some (ds, r') /\
    Z.of_nat (length ds) = 1%Z /\
    forall k d, ds !! k = Some d ->
      dist (screenCenter 800 600)
           (bodyCenter 64 64 (preClamp 800 600 64 64 wideRand k))
        <= spawnRadius 800 600 /\
      inBounds 800 600 64 64 d.
Proof.
  assert (Hr : rand_ok wideRand).
  { intros k. unfold wideRand; simpl. destruct k; lra. }
  destruct (C6_spawner 800 600 64 64 (-1) wideRand) as [Hneg _].
  destruct (C6_spawner 800 600 64 64 1 wideRand) as [_ Hpos].
  split; [apply Hneg; lia |].
  destruct Hpos as (ds & r' & Hc & Hl & Hall); [lia |].
  exists ds, r'. split; [exact Hc |]. split; [exact Hl |].
  intros k d Hk. destruct (Hall k d Hk) as (Hin & _ & _ & Hb).
  split; [apply Hin; [exact Hr | lia | lia] |]. apply Hb; lra.
Defined.

(** ** C8: the timer overlay *)

Lemma Seconds_floor (e : Duration) :
  (0 <= e)%Z -> int_of_float (Seconds e) = (e / Second)%Z.
Proof.
  intros He. unfold Seconds, Second.
  rewrite Z.quot_div_nonneg, Z.rem_mod_nonneg by lia.
  pose proof (Z.mod_pos_bound e 1000000000 ltac:(lia)) as [Hm0 Hm1].
  assert (Hq : (0 <= e / 1000000000)%Z) by (apply Z.div_pos; lia).
  apply IZR_le in Hm0, Hq. apply IZR_lt in Hm1.
  set (q := (e / 1000000000)%Z) in *. set (m := (e mod 1000000000)%Z) in *.
  assert (Hf : 0 <= IZR m / 1e9 < 1).
  { split.
    - apply Rmult_le_pos; [exact Hm0 | lra].
    - apply Rmult_lt_reg_r with 1e9; [lra |]. field_simplify. lra. }
  unfold int_of_float.
  destruct (Rle_dec 0 (IZR q + IZR m / 1e9)) as [_ | Hneg]; [| lra].
  symmetry. apply Int_part_spec. lra.
Qed.

Lemma string_length_app (a b : string) :
  String.length (a ++ b) = (String.length a + String.length b)%nat.
Proof. induction a as [| c a IH]; simpl; [reflexivity | now rewrite IH]. Qed.

Lemma zeros_length k : String.length (zeros k) = k.
Proof. induction k as [| k IH]; simpl; [reflexivity | now rewrite IH]. Qed.




Lemma fmt_0d_length width n :
  (0 <= n)%Z ->
  String.length (fmt_0d width n) = Nat.max width (String.length (digits n)).
Proof.
  intros Hn. unfold fmt_0d.
  destruct (Z.ltb_spec n 0); [lia |].
  rewrite string_length_app, zeros_length. lia.
Qed.

Lemma digits_length_3 n :
  (0 <= n < 1000)%Z -> (String.length (digits n) <= 3)%nat.
Proof.
  intros Hn.
  assert (Hall : forallb (fun k => String.length (digits (Z.of_nat k)) <=? 3)%nat
                         (seq 0 1000) = true) by (vm_compute; reflexivity).
  rewrite forallb_forall in Hall.
  specialize (Hall (Z.to_nat n)).
  rewrite Z2Nat.id in Hall by lia.
  apply Nat.leb_le, Hall, in_seq. lia.
Qed.

Lemma digits_length_2 n :
  (0 <= n < 100)%Z -> (String.length (digits n) <= 2)%nat.
Proof.
  intros Hn.
  assert (Hall : forallb (fun k => String.length (digits (Z.of_nat k)) <=? 2)%nat
                         (seq 0 100) = true) by (vm_compute; reflexivity).
  rewrite forallb_forall in Hall.
  specialize (Hall (Z.to_nat n)).
  rewrite Z2Nat.id in Hall by lia.
  apply Nat.leb_le, Hall, in_seq. lia.
Qed.

Lemma timerText_fields g now :
  let total := shownSeconds g now in
  timerText g now =
    (fmt_0d 3 (total / 3600) ++ ":" ++ fmt_0d 2 ((total / 60) mod 60) ++ ":" ++
     fmt_0d 2 (total mod 60))%string.
Proof.
  intros total. unfold timerText. cbv zeta.
  set (e := Sub now (timerStartTime g)).
  set (ts := int_of_float _).
  assert (Htot : ts = total).
  { unfold ts, total, shownSeconds. fold e.
    destruct (Z.ltb_spec e 0) as [Hneg | Hpos].
    - rewrite Seconds_floor by lia. unfold Second in *.
      assert ((e / 1000000000 < 0)%Z) by (apply Z.div_lt_upper_bound; lia).
      rewrite Z.max_l by lia. reflexivity.
    - rewrite Seconds_floor by lia. unfold Second.
      assert ((0 <= e / 1000000000)%Z) by (apply Z.div_pos; lia).
      now rewrite Z.max_r by lia. }
  rewrite Htot.
  assert (H0 : (0 <= total)%Z) by (unfold total, shownSeconds; lia).
  rewrite (Z.quot_div_nonneg total 3600) by lia.
  rewrite (Z.rem_mod_nonneg total 3600) by lia.
  rewrite (Z.rem_mod_nonneg total 60) by lia.
  rewrite (Z.quot_div_nonneg (total mod 3600) 60)
    by (try apply Z.mod_pos_bound; lia).
  replace ((total mod 3600) / 60)%Z with ((total / 60) mod 60)%Z
    by (Z.div_mod_to_equations; lia).
  reflexivity.
Qed.



(** Sample readings of the overlay. *)
Lemma timerText_samples :
  timerText (mkGame 64 64 [] 800 600 1 0) 3725500000000 = "001:02:05"%string /\
  timerText (mkGame 64 64 [] 800 600 1 0) 999999999 = "000:00:00"%string /\
  timerText (mkGame 64 64 [] 800 600 1 0) 4500000000000000 = "1250:00:00"%string.
Proof.
  repeat split; rewrite timerText_fields; reflexivity.
Qed.

(** * Reachable states

    [main] starts from a well-formed state (count 6, six donuts), and every
    call of [Update] or [Layout] on a well-formed state returns, without a
    panic, a well-formed state. *)

Lemma handlePlus_wellFormed inp g r :
  wellFormed g ->
  exists g1 r1, handlePlus inp g r = Some (g1, r1) /\ wellFormed g1.
Proof.
  intros [Hn Hl]. unfold minDonuts, maxDonuts in Hn. unfold handlePlus.
  destruct (inp KeyEqual || inp KeyNumpadAdd);
    [| exists g, r; split; [reflexivity | now split]].
  destruct (Z.ltb_spec (numDonuts g) maxDonuts) as [Hlt | _];
    [| exists g, r; split; [reflexivity | now split]].
  unfold maxDonuts in Hlt.
  cbn [screenWidth screenHeight donutWidth donutHeight numDonuts setNumDonuts].
  destruct (createDonuts_length (screenWidth g) (screenHeight g) (donutWidth g)
              (donutHeight g) (numDonuts g + 1) r) as (ds & r' & Hc & Hds); [lia |].
  rewrite Hc. simpl. eexists _, _. split; [reflexivity |].
  split; simpl; unfold minDonuts, maxDonuts; lia.
Qed.

Lemma handleMinus_wellFormed inp g r :
  wellFormed g ->
  exists g1 r1, handleMinus inp g r = Some (g1, r1) /\ wellFormed g1.
Proof.
  intros [Hn Hl]. unfold minDonuts, maxDonuts in Hn. unfold handleMinus.
  destruct (inp KeyMinus || inp KeyNumpadSubtract);
    [| exists g, r; split; [reflexivity | now split]].
  destruct (Z.gtb_spec (numDonuts g) minDonuts) as [Hgt | _];
    [| exists g, r; split; [reflexivity | now split]].
  unfold minDonuts in Hgt.
  cbn [screenWidth screenHeight donutWidth donutHeight numDonuts setNumDonuts].
  destruct (createDonuts_length (screenWidth g) (screenHeight g) (donutWidth g)
              (donutHeight g) (numDonuts g - 1) r) as (ds & r' & Hc & Hds); [lia |].
  rewrite Hc. simpl. eexists _, _. split; [reflexivity |].
  split; simpl; unfold minDonuts, maxDonuts; lia.
Qed.

Lemma tick_wellFormed g : wellFormed g -> wellFormed (tick g).
Proof.
  intros [Hn Hl]. unfold wellFormed, tick. cbn [numDonuts donuts setDonuts].
  split; [exact Hn |].
  rewrite handleDonutCollisions_length. unfold updateDonuts.
  now rewrite length_map.
Qed.

Lemma Update_wellFormed inp g r :
  wellFormed g ->
  exists e g' r', Update inp g r = Some (e, g', r') /\ wellFormed g'.
Proof.
  intros Hwf. unfold Update.
  destruct (inp KeyEscape); [now exists Termination, g, r |].
  destruct (handlePlus_wellFormed inp g r Hwf) as (g1 & r1 & H1 & Hwf1).
  rewrite H1. simpl.
  destruct (handleMinus_wellFormed inp g1 r1 Hwf1) as (g2 & r2 & H2 & Hwf2).
  rewrite H2. simpl.
  exists ErrNil, (tick g2), r2. split; [reflexivity |].
  now apply tick_wellFormed.
Qed.

Lemma Layout_wellFormed W H g r :
  wellFormed g ->
  exists g' r', Layout W H g r = Some (W, H, g', r') /\ wellFormed g'.
Proof.
  intros [Hn Hl]. unfold minDonuts, maxDonuts in Hn. unfold Layout.
  destruct (negb (screenWidth g =? W)%Z || negb (screenHeight g =? H)%Z);
    [| exists g, r; split; [reflexivity | now split]].
  cbn [screenWidth screenHeight donutWidth donutHeight numDonuts setScreen].
  destruct (createDonuts_length W H (donutWidth g) (donutHeight g)
              (numDonuts g) r) as (ds & r' & Hc & Hds); [lia |].
  rewrite Hc. simpl. eexists _, _. split; [reflexivity |].
  split; simpl; unfold minDonuts, maxDonuts; lia.
Qed.

(** * Further properties of the code *)

(** ** The resolver is an elastic collision *)

Lemma collisionNormal_unit c1x c1y c2x c2y :
  fst (collisionNormal c1x c1y c2x c2y) * fst (collisionNormal c1x c1y c2x c2y) +
  snd (collisionNormal c1x c1y c2x c2y) * snd (collisionNormal c1x c1y c2x c2y) = 1.
Proof.
  unfold collisionNormal.
  set (dx := c2x - c1x). set (dy := c2y - c1y).
  set (D := sqrt (dx * dx + dy * dy)).
  unfold feq. destruct (Req_dec_T D 0) as [H0 | HD]; simpl; [ring |].
  assert (HDD : D * D = dx * dx + dy * dy)
    by (apply sqrt_sqrt, sum_squares_nonneg).
  replace (dx / D * (dx / D) + dy / D * (dy / D))
    with ((dx * dx + dy * dy) / (D * D)) by (field; exact HD).
  rewrite <- HDD. field. exact HD.
Qed.

(** The velocities after the resolver, in terms of the normal. *)
Lemma resolveCollision_velocities g d1 d2 c1x c1y c2x c2y :
  let n := collisionNormal c1x c1y c2x c2y in
  let dvn := (vx d2 - vx d1) * fst n + (vy d2 - vy d1) * snd n in
  let res := resolveCollision g d1 d2 c1x c1y c2x c2y in
  let k := if fgt dvn 0 then 0 else dvn in
  vx (fst res) = vx d1 + k * fst n /\ vy (fst res) = vy d1 + k * snd n /\
  vx (snd res) = vx d2 - k * fst n /\ vy (snd res) = vy d2 - k * snd n.
Proof.
  unfold resolveCollision, collisionNormal, fgt, flt.
  destruct (feq _ 0); cbn [fst snd];
    repeat match goal with
           | |- context [Rlt_dec ?a ?b] => destruct (Rlt_dec a b)
           end;
    cbn [fst snd vx vy]; repeat split; lra.
Qed.

(** Whatever pair the resolver is given, the kinetic energy of the pair is
    the same after it as before. *)
Theorem resolveCollision_energy :
  forall (g : Game) (d1 d2 : Donut) (center1X center1Y center2X center2Y : R),
    let res := resolveCollision g d1 d2 center1X center1Y center2X center2Y in
    kinetic (fst res) + kinetic (snd res) = kinetic d1 + kinetic d2.
Proof.
  intros g d1 d2 c1x c1y c2x c2y res.
  pose proof (resolveCollision_velocities g d1 d2 c1x c1y c2x c2y) as Hv.
  pose proof (collisionNormal_unit c1x c1y c2x c2y) as Hn.
  cbv zeta in Hv. fold res in Hv.
  set (n := collisionNormal c1x c1y c2x c2y) in *.
  set (nx := fst n) in *. set (ny := snd n) in *.
  set (dvn := (vx d2 - vx d1) * nx + (vy d2 - vy d1) * ny) in *.
  destruct Hv as (H1 & H2 & H3 & H4).
  unfold kinetic. rewrite H1, H2, H3, H4.
  destruct (fgt dvn 0); [ring |].
  replace ((vx d1 + dvn * nx) * (vx d1 + dvn * nx) +
           (vy d1 + dvn * ny) * (vy d1 + dvn * ny) +
           ((vx d2 - dvn * nx) * (vx d2 - dvn * nx) +
            (vy d2 - dvn * ny) * (vy d2 - dvn * ny)))
    with (vx d1 * vx d1 + vy d1 * vy d1 + (vx d2 * vx d2 + vy d2 * vy d2)
          + 2 * dvn * (dvn * (nx * nx + ny * ny) - dvn))
    by (unfold dvn; ring).
  rewrite Hn. ring.
Qed.

(** After the resolver the two donuts do not approach each other along the
    normal: the normal component of the relative velocity is the absolute
    value of what it was, and the component of each velocity across the
    normal is untouched. *)
Theorem resolveCollision_rebound :
  forall (g : Game) (d1 d2 : Donut) (center1X center1Y center2X center2Y : R),
    let n := collisionNormal center1X center1Y center2X center2Y in
    let res := resolveCollision g d1 d2 center1X center1Y center2X center2Y in
    let dvn := (vx d2 - vx d1) * fst n + (vy d2 - vy d1) * snd n in
    (vx (snd res) - vx (fst res)) * fst n + (vy (snd res) - vy (fst res)) * snd n
      = Rabs dvn /\
    vy (fst res) * fst n - vx (fst res) * snd n = vy d1 * fst n - vx d1 * snd n /\
    vy (snd res) * fst n - vx (snd res) * snd n = vy d2 * fst n - vx d2 * snd n.
Proof.
  intros g d1 d2 c1x c1y c2x c2y n res dvn.
  pose proof (resolveCollision_velocities g d1 d2 c1x c1y c2x c2y) as Hv.
  pose proof (collisionNormal_unit c1x c1y c2x c2y) as Hn.
  cbv zeta in Hv. fold n res in Hv. fold n in Hn.
  set (nx := fst n) in *. set (ny := snd n) in *. fold dvn in Hv.
  destruct Hv as (H1 & H2 & H3 & H4). rewrite H1, H2, H3, H4.
  unfold fgt, flt. destruct (Rlt_dec 0 dvn) as [Hpos | Hneg].
  - rewrite Rabs_right by lra. repeat split; unfold dvn; ring.
  - rewrite Rabs_left1 by lra. repeat split; try ring.
    replace ((vx d2 - dvn * nx - (vx d1 + dvn * nx)) * nx +
             (vy d2 - dvn * ny - (vy d1 + dvn * ny)) * ny)
      with (dvn - 2 * dvn * (nx * nx + ny * ny)) by (unfold dvn; ring).
    rewrite Hn. ring.
Qed.

(** ** What a whole tick keeps *)

Lemma collidePair_total_pair (f : Donut -> R) g i j ds :
  (forall d1 d2 c1x c1y c2x c2y,
     f (fst (resolveCollision g d1 d2 c1x c1y c2x c2y)) +
     f (snd (resolveCollision g d1 d2 c1x c1y c2x c2y)) = f d1 + f d2) ->
  i <> j -> total f (collidePair g i j ds) = total f ds.
Proof.
  intros Hf Hij. unfold collidePair.
  destruct (ds !! i) as [d1 |] eqn:E1; [| reflexivity].
  destruct (ds !! j) as [d2 |] eqn:E2; [| reflexivity].
  destruct (areDonutsColliding _ _ _ _ _); [| reflexivity].
  specialize (Hf d1 d2 (x d1 + donutWidth g / 2) (y d1 + donutWidth g / 2)
                 (x d2 + donutWidth g / 2) (y d2 + donutWidth g / 2)).
  destruct (resolveCollision _ _ _ _ _ _ _) as [e1 e2]. cbn [fst snd] in Hf.
  assert (Hj : <[i := e1]> ds !! j = Some d2)
    by now rewrite list_lookup_insert_ne.
  rewrite (total_insert _ _ j d2 e2 Hj), (total_insert _ _ i d1 e1 E1). lra.
Qed.

Lemma handleDonutCollisions_total_pair (f : Donut -> R) g ds :
  (forall d1 d2 c1x c1y c2x c2y,
     f (fst (resolveCollision g d1 d2 c1x c1y c2x c2y)) +
     f (snd (resolveCollision g d1 d2 c1x c1y c2x c2y)) = f d1 + f d2) ->
  total f (handleDonutCollisions g ds) = total f ds.
Proof.
  intros Hf. unfold handleDonutCollisions.
  apply (fold_left_invariant (fun acc => total f acc = total f ds)); [| reflexivity].
  intros acc i Hacc. unfold collideFrom.
  assert (Hin : forall l, (forall j, In j l -> i <> j) ->
                  forall a, total f a = total f ds ->
                  total f (fold_left (fun a j => collidePair g i j a) l a) = total f ds).
  { induction l as [| j l IH]; simpl; intros Hl a Ha; [exact Ha |].
    apply IH; [intros j' Hj'; apply Hl; now right |].
    rewrite collidePair_total_pair; [exact Ha | exact Hf | apply Hl; now left]. }
  apply Hin; [| exact Hacc].
  intros j Hj. apply in_seq in Hj. lia.
Qed.

Lemma updateDonut_kinetic W H w h d : kinetic (updateDonut W H w h d) = kinetic d.
Proof.
  unfold kinetic, updateDonut, fge. fcases; simpl; ring.
Qed.

Lemma total_map_eq (f : Donut -> R) (u : Donut -> Donut) ds :
  (forall d, f (u d) = f d) -> total f (map u ds) = total f ds.
Proof.
  intros Hu. induction ds as [| d ds IH]; simpl; [reflexivity |].
  now rewrite Hu, IH.
Qed.

Lemma tick_kinetic g : total kinetic (donuts (tick g)) = total kinetic (donuts g).
Proof.
  unfold tick. cbn [donuts setDonuts].
  rewrite handleDonutCollisions_total_pair
    by (intros; apply resolveCollision_energy).
  unfold updateDonuts. apply total_map_eq. intros d. apply updateDonut_kinetic.
Qed.

Lemma kinetic_nonneg d : 0 <= kinetic d.
Proof. unfold kinetic. apply sum_squares_nonneg. Qed.

Lemma total_kinetic_bound ds : forall i d,
  ds !! i = Some d -> 0 <= kinetic d <= total kinetic ds.
Proof.
  induction ds as [| c ds IH]; intros i d Hi; [discriminate Hi |].
  assert (Htot : 0 <= total kinetic ds).
  { clear. induction ds as [| c ds IH]; simpl; [lra |].
    pose proof (kinetic_nonneg c). lra. }
  pose proof (kinetic_nonneg c) as Hc. pose proof (kinetic_nonneg d) as Hd.
  destruct i as [| i]; simpl in *.
  - inversion Hi; subst. lra.
  - destruct (IH i d Hi). lra.
Qed.

(** The steady-state ticks never change the total kinetic energy of the
    donuts: bounces flip signs, collisions are elastic.  So no donut is ever
    faster than the whole set was at the start. *)
Theorem ticks_energy :
  forall (n : nat) (g : Game),
    total kinetic (donuts (ticks n g)) = total kinetic (donuts g) /\
    forall (i : nat) (d : Donut),
      donuts (ticks n g) !! i = Some d ->
      vx d * vx d + vy d * vy d <= total kinetic (donuts g).
Proof.
  intros n g.
  assert (Htot : total kinetic (donuts (ticks n g)) = total kinetic (donuts g)).
  { unfold ticks. induction n as [| n IH]; [reflexivity |].
    change (Nat.iter (S n) tick g) with (tick (Nat.iter n tick g)).
    now rewrite tick_kinetic. }
  split; [exact Htot |].
  intros i d Hi. rewrite <- Htot.
  apply (total_kinetic_bound _ i d Hi).
Qed.

Lemma collidePair_keeps {A} (f : Donut -> A) g i j ds :
  (forall d1 d2 c1x c1y c2x c2y,
     f (fst (resolveCollision g d1 d2 c1x c1y c2x c2y)) = f d1 /\
     f (snd (resolveCollision g d1 d2 c1x c1y c2x c2y)) = f d2) ->
  f <$> collidePair g i j ds = f <$> ds.
Proof.
  intros Hf. unfold collidePair.
  destruct (ds !! i) as [d1 |] eqn:E1; [| reflexivity].
  destruct (ds !! j) as [d2 |] eqn:E2; [| reflexivity].
  destruct (areDonutsColliding _ _ _ _ _); [| reflexivity].
  specialize (Hf d1 d2 (x d1 + donutWidth g / 2) (y d1 + donutWidth g / 2)
                 (x d2 + donutWidth g / 2) (y d2 + donutWidth g / 2)).
  destruct (resolveCollision _ _ _ _ _ _ _) as [e1 e2]. cbn [fst snd] in Hf.
  destruct Hf as [Hf1 Hf2].
  rewrite !list_fmap_insert, Hf1, Hf2.
  rewrite (list_insert_id (f <$> ds) i (f d1)) by now rewrite list_lookup_fmap, E1.
  apply list_insert_id. now rewrite list_lookup_fmap, E2.
Qed.

Lemma handleDonutCollisions_keeps {A} (f : Donut -> A) g ds :
  (forall d1 d2 c1x c1y c2x c2y,
     f (fst (resolveCollision g d1 d2 c1x c1y c2x c2y)) = f d1 /\
     f (snd (resolveCollision g d1 d2 c1x c1y c2x c2y)) = f d2) ->
  f <$> handleDonutCollisions g ds = f <$> ds.
Proof.
  intros Hf. unfold handleDonutCollisions.
  apply (fold_left_invariant (fun acc => f <$> acc = f <$> ds)); [| reflexivity].
  intros acc i Hacc. unfold collideFrom.
  apply (fold_left_invariant (fun acc' => f <$> acc' = f <$> ds)); [| exact Hacc].
  intros acc' j Hacc'. now rewrite collidePair_keeps.
Qed.

Lemma resolveCollision_spin g d1 d2 c1x c1y c2x c2y :
  (rotation (fst (resolveCollision g d1 d2 c1x c1y c2x c2y)),
   rotationSpeed (fst (resolveCollision g d1 d2 c1x c1y c2x c2y)))
    = (rotation d1, rotationSpeed d1) /\
  (rotation (snd (resolveCollision g d1 d2 c1x c1y c2x c2y)),
   rotationSpeed (snd (resolveCollision g d1 d2 c1x c1y c2x c2y)))
    = (rotation d2, rotationSpeed d2).
Proof.
  unfold resolveCollision.
  destruct (feq _ 0); simpl; destruct (fgt _ 0); simpl; split; reflexivity.
Qed.

Lemma updateDonut_spin W H w h d :
  (rotation (updateDonut W H w h d), rotationSpeed (updateDonut W H w h d))
    = (rotation d + rotationSpeed d, rotationSpeed d).
Proof.
  unfold updateDonut, fge. fcases; reflexivity.
Qed.

Lemma tick_spin g i d :
  donuts g !! i = Some d ->
  exists d', donuts (tick g) !! i = Some d' /\
             rotationSpeed d' = rotationSpeed d /\
             rotation d' = rotation d + rotationSpeed d.
Proof.
  intros Hi.
  pose proof (handleDonutCollisions_keeps
                (fun d => (rotation d, rotationSpeed d))
                (setDonuts g (updateDonuts g)) (updateDonuts g)
                (resolveCollision_spin _)) as Hk.
  assert (Hl : ((fun d => (rotation d, rotationSpeed d)) <$> donuts (tick g)) !! i
               = Some (rotation d + rotationSpeed d, rotationSpeed d)).
  { unfold tick. cbn [donuts setDonuts]. rewrite Hk.
    unfold updateDonuts. rewrite list_lookup_fmap.
    change (map ?u ?l) with (u <$> l). rewrite list_lookup_fmap, Hi.
    simpl. now rewrite updateDonut_spin. }
  rewrite list_lookup_fmap in Hl.
  destruct (donuts (tick g) !! i) as [d' |]; [| discriminate Hl].
  exists d'. inversion Hl as [[Hr Hs]]. rewrite Hs. now repeat split.
Qed.

(** Neither the bounces nor the collisions touch the spin: after [n] ticks
    the donut in slot [i] has the rotation speed it had and has turned by
    [n] times that speed, without any wrap-around. *)
Theorem ticks_spin :
  forall (n : nat) (g : Game) (i : nat) (d : Donut),
    donuts g !! i = Some d ->
    exists d',
      donuts (ticks n g) !! i = Some d' /\
      rotationSpeed d' = rotationSpeed d /\
      rotation d' = rotation d + INR n * rotationSpeed d.
Proof.
  intros n g i d Hi. unfold ticks.
  induction n as [| n IH].
  - exists d. simpl. repeat split; [exact Hi | lra].
  - destruct IH as (dn & Hn & Hs & Hr).
    change (Nat.iter (S n) tick g) with (tick (Nat.iter n tick g)).
    destruct (tick_spin _ i dn Hn) as (d' & Hd' & Hs' & Hr').
    exists d'. split; [exact Hd' |]. split; [congruence |].
    rewrite Hr', Hr, Hs, S_INR. ring.
Qed.

Lemma ticks_spin_witness :
  exists d',
    donuts (ticks 1 (sampleGame grazing)) !! 0%nat = Some d' /\
    rotationSpeed d' = 0.02 /\ rotation d' = 0.02.
Proof.
  destruct (ticks_spin 1 (sampleGame grazing) 0 (mkDonut 2 100 (-2) 2 0 0.02) eq_refl)
    as (d' & Hd' & Hs & Hr).
  exists d'. split; [exact Hd' |]. split; [exact Hs |].
  rewrite Hr. simpl. lra.
Defined.

(** ** The positional correction resolves the overlap *)



(** ** The spawner: motion, spin and the draws it takes *)

Lemma createDonut_motion W H w h i r :
  let u := fun k => stream r (cursor r + k) in
  let d := fst (createDonut W H w h i r) in
  vx d = (if flt (u 4%nat) 0.5 then - (1.5 + u 2%nat * 3.0) else 1.5 + u 2%nat * 3.0) /\
  vy d = (if flt (u 5%nat) 0.5 then - (1.5 + u 3%nat * 3.0) else 1.5 + u 3%nat * 3.0) /\
  rotationSpeed d =
    (if Nat.eqb (i mod 2) 1 then - (0.015 + u 6%nat * 0.02)
     else 0.015 + u 6%nat * 0.02) /\
  rotation d = u 7%nat * 2 * PI.
Proof.
  cbv beta zeta. rewrite !(Nat.add_comm (cursor r)).
  unfold createDonut, bind, Float64, ret, spawnXY. simpl.
  repeat split.
Qed.

Lemma createLoop_cursor W H w h n : forall i r,
  snd (createLoop W H w h i n r) = mkRand (stream r) (cursor r + 8 * n).
Proof.
  induction n as [| n IH]; intros i r.
  - simpl. unfold ret. simpl. destruct r; simpl. f_equal. lia.
  - simpl. unfold bind at 1.
    pose proof (createDonut_spec W H w h i r) as (_ & _ & Hr).
    destruct (createDonut W H w h i r) as [d r1]. simpl in Hr.
    unfold bind at 1. specialize (IH (S i) r1).
    destruct (createLoop W H w h (S i) n r1) as [ds r2].
    simpl in *. rewrite IH, Hr. simpl. f_equal. lia.
Qed.

Lemma createDonut_local W H w h i r1 r2 :
  (forall j, (j < 8)%nat -> stream r1 (cursor r1 + j) = stream r2 (cursor r2 + j)) ->
  fst (createDonut W H w h i r1) = fst (createDonut W H w h i r2).
Proof.
  intros Hs.
  pose proof (Hs 0%nat ltac:(lia)) as H0. pose proof (Hs 1%nat ltac:(lia)) as H1.
  pose proof (Hs 2%nat ltac:(lia)) as H2. pose proof (Hs 3%nat ltac:(lia)) as H3.
  pose proof (Hs 4%nat ltac:(lia)) as H4. pose proof (Hs 5%nat ltac:(lia)) as H5.
  pose proof (Hs 6%nat ltac:(lia)) as H6. pose proof (Hs 7%nat ltac:(lia)) as H7.
  rewrite !(Nat.add_comm (cursor r1)), !(Nat.add_comm (cursor r2)) in *.
  simpl in H0, H1, H2, H3, H4, H5, H6, H7.
  unfold createDonut, bind, Float64, ret, spawnXY. simpl.
  now rewrite H0, H1, H2, H3, H4, H5, H6, H7.
Qed.

Lemma createLoop_local W H w h n i r1 r2 :
  (forall j, (j < 8 * n)%nat ->
             stream r1 (cursor r1 + j) = stream r2 (cursor r2 + j)) ->
  fst (createLoop W H w h i n r1) = fst (createLoop W H w h i n r2).
Proof.
  intros Hs. apply list_eq. intros k.
  pose proof (createLoop_length W H w h n i r1) as L1.
  pose proof (createLoop_length W H w h n i r2) as L2.
  destruct (fst (createLoop W H w h i n r1) !! k) as [a |] eqn:E1;
    destruct (fst (createLoop W H w h i n r2) !! k) as [b |] eqn:E2.
  - pose proof (lookup_lt_Some _ _ _ E1) as Hk. rewrite L1 in Hk.
    apply createLoop_lookup in E1, E2. subst a b. f_equal.
    apply createDonut_local. intros j Hj. cbn [stream cursor].
    rewrite <- !Nat.add_assoc. apply Hs. lia.
  - apply lookup_lt_Some in E1. apply lookup_ge_None in E2. lia.
  - apply lookup_lt_Some in E2. apply lookup_ge_None in E1. lia.
  - reflexivity.
Qed.

(** Every donut that [createDonuts] makes from a source that keeps the
    contract of [rand.Float64] moves, on each axis, with a speed from 1.5 up
    to 4.5, starts at an angle from 0 up to a full turn and spins at a rate
    from 0.015 up to 0.035, forwards in the even slots and backwards in the
    odd ones. *)
Theorem createDonuts_motion :
  forall (screenWidth screenHeight : Z) (donutWidth donutHeight : R)
         (count : Z) (r r' : Rand) (ds : list Donut),
    rand_ok r ->
    createDonuts screenWidth screenHeight donutWidth donutHeight count r
      = Some (ds, r') ->
    forall (k : nat) (d : Donut),
      ds !! k = Some d ->
      1.5 <= Rabs (vx d) < 4.5 /\ 1.5 <= Rabs (vy d) < 4.5 /\
      0 <= rotation d < 2 * PI /\
      ((k mod 2 = 0)%nat -> 0.015 <= rotationSpeed d < 0.035) /\
      ((k mod 2 = 1)%nat -> -0.035 < rotationSpeed d <= -0.015).
Proof.
  intros W H w h count r r' ds Hr Hc k d Hk.
  unfold createDonuts in Hc.
  destruct (count <? 0)%Z; [discriminate Hc |].
  inversion Hc as [Hc']. clear Hc.
  assert (Hds : ds = fst (createLoop W H w h 0 (Z.to_nat count) r))
    by now rewrite Hc'.
  rewrite Hds in Hk. apply createLoop_lookup in Hk.
  change (0 + k)%nat with k in Hk.
  pose proof (createDonut_motion W H w h k (mkRand (stream r) (cursor r + 8 * k)))
    as Hm.
  cbv beta zeta in Hm. destruct Hm as (Hvx & Hvy & Hrs & Hrot).
  rewrite <- Hk in Hvx, Hvy, Hrs, Hrot. cbn [stream cursor] in Hvx, Hvy, Hrs, Hrot.
  pose proof (Hr (cursor r + 8 * k + 2)%nat) as U2.
  pose proof (Hr (cursor r + 8 * k + 3)%nat) as U3.
  pose proof (Hr (cursor r + 8 * k + 6)%nat) as U6.
  pose proof (Hr (cursor r + 8 * k + 7)%nat) as U7.
  pose proof PI_RGT_0 as Hpi.
  split; [| split; [| split; [| split]]].
  - rewrite Hvx. destruct (flt (stream r (cursor r + 8 * k + 4)) 0.5).
    + assert (Hs : - (1.5 + stream r (cursor r + 8 * k + 2) * 3.0) < 0) by lra.
      rewrite Rabs_left by exact Hs. lra.
    + assert (Hs : 1.5 + stream r (cursor r + 8 * k + 2) * 3.0 >= 0) by lra.
      rewrite Rabs_right by exact Hs. lra.
  - rewrite Hvy. destruct (flt (stream r (cursor r + 8 * k + 5)) 0.5).
    + assert (Hs : - (1.5 + stream r (cursor r + 8 * k + 3) * 3.0) < 0) by lra.
      rewrite Rabs_left by exact Hs. lra.
    + assert (Hs : 1.5 + stream r (cursor r + 8 * k + 3) * 3.0 >= 0) by lra.
      rewrite Rabs_right by exact Hs. lra.
  - rewrite Hrot.
    assert (H0 : 0 <= stream r (cursor r + 8 * k + 7) * (2 * PI))
      by (apply Rmult_le_pos; lra).
    assert (H1 : 0 < (1 - stream r (cursor r + 8 * k + 7)) * (2 * PI))
      by (apply Rmult_lt_0_compat; lra).
    lra.
  - intros Hev. rewrite Hrs, Hev. cbn [Nat.eqb]. lra.
  - intros Hod. rewrite Hrs, Hod. cbn [Nat.eqb]. lra.
Qed.

Lemma createDonuts_motion_witness :
  exists ds r',
    createDonuts 800 600 64 64 2 wideRand = Some (ds, r') /\
    forall k d, ds !! k = Some d -> 1.5 <= Rabs (vx d) < 4.5.
Proof.
  assert (Hr : rand_ok wideRand).
  { intros k. unfold wideRand; simpl. destruct k; lra. }
  destruct (createDonuts_length 800 600 64 64 2 wideRand) as (ds & r' & Hc & _);
    [lia |].
  exists ds, r'. split; [exact Hc |].
  intros k d Hk.
  apply (createDonuts_motion 800 600 64 64 2 wideRand r' ds Hr Hc k d Hk).
Defined.

(** [createDonuts] takes exactly eight draws per donut from the source and
    nothing else: the source it returns is the same stream, eight times the
    count further on, and a source that gives the same draws over that
    stretch gives the same donuts. *)
Theorem createDonuts_draws :
  forall (screenWidth screenHeight : Z) (donutWidth donutHeight : R)
         (count : Z) (r r' : Rand) (ds : list Donut),
    createDonuts screenWidth screenHeight donutWidth donutHeight count r
      = Some (ds, r') ->
    stream r' = stream r /\
    cursor r' = (cursor r + 8 * length ds)%nat /\
    forall r2 : Rand,
      (forall j, (j < 8 * length ds)%nat ->
                 stream r2 (cursor r2 + j) = stream r (cursor r + j)) ->
      exists r2',
        createDonuts screenWidth screenHeight donutWidth donutHeight count r2
          = Some (ds, r2').
Proof.
  intros W H w h count r r' ds Hc.
  unfold createDonuts in *.
  destruct (count <? 0)%Z; [discriminate Hc |].
  inversion Hc as [Hc']. clear Hc.
  pose proof (createLoop_length W H w h (Z.to_nat count) 0 r) as Hl.
  pose proof (createLoop_cursor W H w h (Z.to_nat count) 0 r) as Hcur.
  rewrite Hc' in Hl, Hcur. cbn [fst snd] in Hl, Hcur.
  rewrite Hcur, Hl. cbn [stream cursor].
  split; [reflexivity |]. split; [reflexivity |].
  intros r2 Hs.
  pose proof (createLoop_local W H w h (Z.to_nat count) 0 r2 r Hs) as Hloc.
  rewrite Hc' in Hloc. cbn [fst] in Hloc.
  destruct (createLoop W H w h 0 (Z.to_nat count) r2) as [ds2 r2'].
  cbn [fst] in Hloc. subst ds2. now exists r2'.
Qed.

Lemma createDonuts_draws_witness :
  exists ds r',
    createDonuts 800 600 64 64 2 wideRand = Some (ds, r') /\
    cursor r' = 16%nat /\
    exists r2', createDonuts 800 600 64 64 2
                  (mkRand (fun k => stream wideRand (k - 5)) 5) = Some (ds, r2').
Proof.
  destruct (createDonuts_length 800 600 64 64 2 wideRand) as (ds & r' & Hc & Hl);
    [lia |].
  destruct (createDonuts_draws 800 600 64 64 2 wideRand r' ds Hc) as (_ & Hcur & Hloc).
  exists ds, r'. split; [exact Hc |]. split.
  - rewrite Hcur. unfold wideRand. cbn [cursor]. lia.
  - apply Hloc. intros j _. unfold wideRand. cbn [stream cursor].
    replace (5 + j - 5)%nat with (0 + j)%nat by lia. reflexivity.
Defined.

(** ** Respawns *)

Lemma createDonuts_inBounds W H w h count r ds r' :
  createDonuts W H w h count r = Some (ds, r') ->
  w <= IZR W -> h <= IZR H ->
  Forall (inBounds W H w h) ds /\ Z.of_nat (length ds) = count.
Proof.
  intros Hc Hw Hh. unfold createDonuts in Hc.
  destruct (Z.ltb_spec count 0) as [| Hpos]; [discriminate Hc |].
  inversion Hc as [Hc']. clear Hc.
  pose proof (createLoop_length W H w h (Z.to_nat count) 0 r) as Hl.
  pose proof (createLoop_lookup W H w h (Z.to_nat count) 0 r) as Hlk.
  rewrite Hc' in Hl, Hlk. cbn [fst] in Hl, Hlk.
  split; [| lia].
  apply Forall_lookup. intros k d Hk. apply Hlk in Hk.
  pose proof (createDonut_spec W H w h (0 + k)
                (mkRand (stream r) (cursor r + 8 * k))) as (Hx & Hy & _).
  rewrite <- Hk in Hx, Hy. unfold inBounds. rewrite Hx, Hy.
  split; now apply clampSpawn_bounds.
Qed.

Lemma createDonuts_cursor W H w h count r ds r' :
  createDonuts W H w h count r = Some (ds, r') ->
  stream r' = stream r /\ cursor r' = (cursor r + 8 * Z.to_nat count)%nat.
Proof.
  intros Hc. unfold createDonuts in Hc.
  destruct (count <? 0)%Z; [discriminate Hc |].
  inversion Hc as [Hc'].
  pose proof (createLoop_cursor W H w h (Z.to_nat count) 0 r) as Hcur.
  rewrite Hc' in Hcur. cbn [snd] in Hcur. rewrite Hcur. now split.
Qed.

(** A resize to a screen that a body fits in leaves every donut inside the
    new bounds, and as many donuts as before. *)
Theorem Layout_respawn_inBounds :
  forall (g g' : Game) (r r' : Rand) (outsideWidth outsideHeight w0 h0 : Z),
    Layout outsideWidth outsideHeight g r = Some (w0, h0, g', r') ->
    outsideWidth <> screenWidth g \/ outsideHeight <> screenHeight g ->
    donutWidth g <= IZR outsideWidth -> donutHeight g <= IZR outsideHeight ->
    allInBounds g' (donuts g') /\
    screenWidth g' = outsideWidth /\ screenHeight g' = outsideHeight /\
    numDonuts g' = numDonuts g /\
    Z.of_nat (length (donuts g')) = numDonuts g.
Proof.
  intros g g' r r' W H w0 h0 HL Hne Hw Hh. unfold Layout in HL.
  assert (Hb : negb (screenWidth g =? W)%Z || negb (screenHeight g =? H)%Z = true).
  { destruct Hne as [Hn | Hn].
    - apply orb_true_iff. left. apply negb_true_iff, Z.eqb_neq. congruence.
    - apply orb_true_iff. right. apply negb_true_iff, Z.eqb_neq. congruence. }
  rewrite Hb in HL.
  cbn [screenWidth screenHeight donutWidth donutHeight numDonuts setScreen] in HL.
  destruct (createDonuts W H (donutWidth g) (donutHeight g) (numDonuts g) r)
    as [[ds r1] |] eqn:Hc; [| discriminate HL].
  simpl in HL. inversion HL; subst. clear HL.
  destruct (createDonuts_inBounds _ _ _ _ _ _ _ _ Hc Hw Hh) as [Hin Hlen].
  unfold allInBounds. cbn [screenWidth screenHeight donutWidth donutHeight
                           numDonuts donuts setDonuts setScreen].
  now repeat split.
Qed.

Lemma Layout_respawn_inBounds_witness :
  exists g' r',
    Layout 1024 768 (sampleGame grazing) (constRand 0) =
      Some (1024%Z, 768%Z, g', r') /\
    allInBounds g' (donuts g') /\ Z.of_nat (length (donuts g')) = 2%Z.
Proof.
  destruct (Layout_wellFormed 1024 768 (sampleGame grazing) (constRand 0))
    as (g' & r' & HL & _).
  { split; simpl; unfold minDonuts, maxDonuts; lia. }
  exists g', r'. split; [exact HL |].
  destruct (Layout_respawn_inBounds _ _ _ _ _ _ _ _ HL) as (Hin & _ & _ & _ & Hl).
  - left. simpl. lia.
  - simpl. lra.
  - simpl. lra.
  - split; [exact Hin | exact Hl].
Defined.

(** ** The whole run *)

Lemma handlePlus_sameSetup inp g r g1 r1 :
  handlePlus inp g r = Some (g1, r1) -> sameSetup g g1.
Proof.
  unfold handlePlus, sameSetup.
  destruct (inp KeyEqual || inp KeyNumpadAdd);
    [| intros H; inversion H; subst; now repeat split].
  destruct (numDonuts g <? maxDonuts)%Z;
    [| intros H; inversion H; subst; now repeat split].
  destruct (createDonuts _ _ _ _ _ r) as [[ds r'] |]; [| discriminate].
  simpl. intros H; inversion H; subst. now repeat split.
Qed.

Lemma handleMinus_sameSetup inp g r g1 r1 :
  handleMinus inp g r = Some (g1, r1) -> sameSetup g g1.
Proof.
  unfold handleMinus, sameSetup.
  destruct (inp KeyMinus || inp KeyNumpadSubtract);
    [| intros H; inversion H; subst; now repeat split].
  destruct (numDonuts g >? minDonuts)%Z;
    [| intros H; inversion H; subst; now repeat split].
  destruct (createDonuts _ _ _ _ _ r) as [[ds r'] |]; [| discriminate].
  simpl. intros H; inversion H; subst. now repeat split.
Qed.

Lemma Update_sameSetup inp g r e g' r' :
  Update inp g r = Some (e, g', r') -> sameSetup g g'.
Proof.
  unfold Update.
  destruct (inp KeyEscape);
    [intros H; inversion H; subst; now repeat split |].
  destruct (handlePlus inp g r) as [[g1 r1] |] eqn:E1; [| discriminate].
  simpl. destruct (handleMinus inp g1 r1) as [[g2 r2] |] eqn:E2; [| discriminate].
  simpl. intros H; inversion H; subst.
  apply handlePlus_sameSetup in E1. apply handleMinus_sameSetup in E2.
  unfold sameSetup in *. cbn [tick donutWidth donutHeight timerStartTime setDonuts].
  destruct E1 as (? & ? & ?), E2 as (? & ? & ?). repeat split; congruence.
Qed.

Lemma Layout_sameSetup W H g r w0 h0 g' r' :
  Layout W H g r = Some (w0, h0, g', r') -> sameSetup g g'.
Proof.
  unfold Layout, sameSetup.
  destruct (negb (screenWidth g =? W)%Z || negb (screenHeight g =? H)%Z);
    [| intros E; inversion E; subst; now repeat split].
  cbn [screenWidth screenHeight donutWidth donutHeight numDonuts setScreen].
  destruct (createDonuts _ _ _ _ _ r) as [[ds r1] |]; [| discriminate].
  simpl. intros E; inversion E; subst. now repeat split.
Qed.

Lemma runGame_invariant evs : forall g r,
  wellFormed g ->
  exists g' r', runGame evs g r = Some (g', r') /\ wellFormed g' /\ sameSetup g g'.
Proof.
  induction evs as [| ev evs IH]; intros g r Hwf.
  - exists g, r. split; [reflexivity |]. split; [exact Hwf |].
    unfold sameSetup. now repeat split.
  - destruct ev as [inp | W H]; simpl.
    + destruct (Update_wellFormed inp g r Hwf) as (e & g1 & r1 & HU & Hwf1).
      pose proof (Update_sameSetup _ _ _ _ _ _ HU) as Hs1.
      rewrite HU. simpl. destruct e.
      * destruct (IH g1 r1 Hwf1) as (g' & r' & HR & Hwf' & Hs').
        exists g', r'. split; [exact HR |]. split; [exact Hwf' |].
        unfold sameSetup in *. destruct Hs1 as (? & ? & ?), Hs' as (? & ? & ?).
        repeat split; congruence.
      * exists g1, r1. split; [reflexivity |]. split; [exact Hwf1 | exact Hs1].
    + destruct (Layout_wellFormed W H g r Hwf) as (g1 & r1 & HL & Hwf1).
      pose proof (Layout_sameSetup _ _ _ _ _ _ _ _ HL) as Hs1.
      rewrite HL. simpl.
      destruct (IH g1 r1 Hwf1) as (g' & r' & HR & Hwf' & Hs').
      exists g', r'. split; [exact HR |]. split; [exact Hwf' |].
      unfold sameSetup in *. destruct Hs1 as (? & ? & ?), Hs' as (? & ? & ?).
      repeat split; congruence.
Qed.

(** From the state that [main] builds, whatever the image size, the random
    source and the frames and resizes that follow, the game never panics;
    the count stays between 1 and 50 and is the number of donuts, and the
    body size and the start of the timer stay what [main] made them. *)
Theorem runGame_from_main :
  forall (boundsDx boundsDy : Z) (start : Time) (r : Rand) (evs : list Event),
    exists g0 r0 g' r',
      initialGame boundsDx boundsDy start r = Some (g0, r0) /\
      runGame evs g0 r0 = Some (g', r') /\
      (1 <= numDonuts g' <= 50)%Z /\
      Z.of_nat (length (donuts g')) = numDonuts g' /\
      donutWidth g' = IZR boundsDx * 0.5 /\
      donutHeight g' = IZR boundsDy * 0.5 /\
      timerStartTime g' = start.
Proof.
  intros dx dy start r evs. unfold initialGame.
  destruct (createDonuts_length 800 600 (IZR dx * donutScale) (IZR dy * donutScale)
              initialDonuts r) as (ds & r0 & Hc & Hl);
    [unfold initialDonuts; lia |].
  rewrite Hc. simpl.
  set (g0 := mkGame (IZR dx * donutScale) (IZR dy * donutScale) ds 800 600
                    initialDonuts start).
  assert (Hwf : wellFormed g0).
  { split; simpl; unfold minDonuts, maxDonuts, initialDonuts in *; lia. }
  destruct (runGame_invariant evs g0 r0 Hwf) as (g' & r' & HR & [Hn Hlen] & Hs).
  exists g0, r0, g', r'. split; [reflexivity |]. split; [exact HR |].
  destruct Hs as (Hw & Hh & Ht). unfold minDonuts, maxDonuts in Hn.
  repeat split; try lia; try assumption.
Qed.

(** ** Both keys in one frame *)

(** When the increase and the decrease key are pressed in the same frame,
    the increase is served first: at the maximum it is ignored and the
    count goes down to 49, below the maximum the count comes back to what
    it was, after two respawns. *)
Theorem Update_plus_and_minus :
  forall (inp : Input) (g : Game) (r : Rand),
    wellFormed g ->
    inp KeyEscape = false ->
    plusPressed inp = true -> minusPressed inp = true ->
    exists g' r',
      Update inp g r = Some (ErrNil, g', r') /\
      numDonuts g' =
        (if (numDonuts g =? maxDonuts)%Z then maxDonuts - 1 else numDonuts g)%Z /\
      Z.of_nat (length (donuts g')) = numDonuts g' /\
      cursor r' =
        (cursor r +
         (if (numDonuts g =? maxDonuts)%Z then 8 * 49
          else 8 * Z.to_nat (numDonuts g + 1) + 8 * Z.to_nat (numDonuts g)))%nat.
Proof.
  intros inp g r [Hn Hl] Hesc Hp Hm.
  unfold minDonuts, maxDonuts in Hn.
  unfold Update. rewrite Hesc.
  unfold plusPressed in Hp. unfold minusPressed in Hm.
  unfold handlePlus. rewrite Hp.
  destruct (Z.ltb_spec (numDonuts g) maxDonuts) as [Hlt | Hge];
    unfold maxDonuts in *.
  - cbn [screenWidth screenHeight donutWidth donutHeight numDonuts setNumDonuts].
    destruct (createDonuts_length (screenWidth g) (screenHeight g) (donutWidth g)
                (donutHeight g) (numDonuts g + 1) r) as (ds1 & r1 & Hc1 & Hl1);
      [lia |].
    pose proof (createDonuts_cursor _ _ _ _ _ _ _ _ Hc1) as [_ Hcur1].
    rewrite Hc1. simpl. unfold handleMinus. rewrite Hm.
    cbn [screenWidth screenHeight donutWidth donutHeight numDonuts setNumDonuts
         setDonuts].
    destruct (Z.gtb_spec (numDonuts g + 1) minDonuts) as [_ | Hle];
      [| unfold minDonuts in Hle; lia].
    replace (numDonuts g + 1 - 1)%Z with (numDonuts g) by lia.
    destruct (createDonuts_length (screenWidth g) (screenHeight g) (donutWidth g)
                (donutHeight g) (numDonuts g) r1) as (ds2 & r2 & Hc2 & Hl2);
      [lia |].
    pose proof (createDonuts_cursor _ _ _ _ _ _ _ _ Hc2) as [_ Hcur2].
    rewrite Hc2. simpl.
    eexists _, _. split; [reflexivity |].
    destruct (Z.eqb_spec (numDonuts g) 50) as [| _]; [lia |].
    cbn [tick numDonuts donuts setDonuts].
    rewrite handleDonutCollisions_length. unfold updateDonuts.
    rewrite length_map. cbn [donuts].
    split; [reflexivity |]. split; [exact Hl2 |]. lia.
  - assert (Hmax : numDonuts g = 50%Z) by lia.
    simpl. unfold handleMinus. rewrite Hm.
    destruct (Z.gtb_spec (numDonuts g) minDonuts) as [_ | Hle];
      [| unfold minDonuts in Hle; lia].
    cbn [screenWidth screenHeight donutWidth donutHeight numDonuts setNumDonuts].
    destruct (createDonuts_length (screenWidth g) (screenHeight g) (donutWidth g)
                (donutHeight g) (numDonuts g - 1) r) as (ds2 & r2 & Hc2 & Hl2);
      [lia |].
    pose proof (createDonuts_cursor _ _ _ _ _ _ _ _ Hc2) as [_ Hcur2].
    rewrite Hc2. simpl.
    eexists _, _. split; [reflexivity |].
    destruct (Z.eqb_spec (numDonuts g) 50) as [_ |]; [| lia].
    cbn [tick numDonuts donuts setDonuts].
    rewrite handleDonutCollisions_length. unfold updateDonuts.
    rewrite length_map. cbn [donuts].
    cbn [numDonuts donuts setDonuts setNumDonuts].
    split; [lia |]. split; [exact Hl2 |].
    rewrite Hcur2, Hmax. reflexivity.
Qed.

Lemma Update_plus_and_minus_witness :
  exists g' r',
    Update bothKeys (sampleGame grazing) (constRand 0) = Some (ErrNil, g', r') /\
    numDonuts g' = 2%Z /\ cursor r' = 40%nat.
Proof.
  destruct (Update_plus_and_minus bothKeys (sampleGame grazing) (constRand 0))
    as (g' & r' & HU & Hn & _ & Hc).
  - split; simpl; unfold minDonuts, maxDonuts; lia.
  - reflexivity.
  - reflexivity.
  - reflexivity.
  - exists g', r'. split; [exact HU |]. split; [exact Hn | exact Hc].
Defined.

(** ** The variant of [main.go] over many frames *)

Lemma updateDonut_speed W H w h d :
  Rabs (vx (updateDonut W H w h d)) = Rabs (vx d) /\
  Rabs (vy (updateDonut W H w h d)) = Rabs (vy d).
Proof.
  unfold updateDonut, fge. fcases; simpl; split;
    try reflexivity; apply Rabs_Ropp.
Qed.

Lemma runMainGo_setup n g :
  MainGo.screenWidth (runMainGo n g) = MainGo.screenWidth g /\
  MainGo.screenHeight (runMainGo n g) = MainGo.screenHeight g /\
  MainGo.donutWidth (runMainGo n g) = MainGo.donutWidth g /\
  MainGo.donutHeight (runMainGo n g) = MainGo.donutHeight g.
Proof.
  unfold runMainGo. induction n as [| n IH]; [now repeat split |].
  change (Nat.iter (S n) ?f g) with (f (Nat.iter n f g)).
  cbn [MainGo.Update snd MainGo.screenWidth MainGo.screenHeight
       MainGo.donutWidth MainGo.donutHeight].
  exact IH.
Qed.

(** With no collisions in this variant, a donut keeps its speed on each
    axis and its spin for ever, has turned by [n] times its rotation speed
    after [n] frames, and from the first frame on is inside the bounds of a
    screen that a body fits in. *)
Theorem runMainGo_invariant :
  forall (n : nat) (g : MainGo.Game) (i : nat) (d : Donut),
    MainGo.donuts g !! i = Some d ->
    exists d',
      MainGo.donuts (runMainGo n g) !! i = Some d' /\
      Rabs (vx d') = Rabs (vx d) /\ Rabs (vy d') = Rabs (vy d) /\
      rotationSpeed d' = rotationSpeed d /\
      rotation d' = rotation d + INR n * rotationSpeed d /\
      ((1 <= n)%nat ->
       MainGo.donutWidth g <= IZR (MainGo.screenWidth g) ->
       MainGo.donutHeight g <= IZR (MainGo.screenHeight g) ->
       inBounds (MainGo.screenWidth g) (MainGo.screenHeight g)
                (MainGo.donutWidth g) (MainGo.donutHeight g) d').
Proof.
  intros n g i d Hi. induction n as [| n IH].
  - exists d. split; [exact Hi |].
    split; [reflexivity |]. split; [reflexivity |]. split; [reflexivity |].
    split; [simpl; lra | intros Hn; lia].
  - destruct IH as (dn & Hn & Hvx & Hvy & Hs & Hr & _).
    destruct (runMainGo_setup n g) as (HW & HH & Hw & Hh).
    set (gn := runMainGo n g) in *.
    exists (updateDonut (MainGo.screenWidth g) (MainGo.screenHeight g)
                        (MainGo.donutWidth g) (MainGo.donutHeight g) dn).
    split.
    { unfold runMainGo.
      change (Nat.iter (S n) ?f g) with (f (Nat.iter n f g)).
      fold (runMainGo n g). fold gn.
      cbn [MainGo.Update snd MainGo.donuts]. rewrite HW, HH, Hw, Hh.
      change (map ?u ?l) with (u <$> l). now rewrite list_lookup_fmap, Hn. }
    destruct (updateDonut_speed (MainGo.screenWidth g) (MainGo.screenHeight g)
                (MainGo.donutWidth g) (MainGo.donutHeight g) dn) as [Sx Sy].
    pose proof (updateDonut_spin (MainGo.screenWidth g) (MainGo.screenHeight g)
                  (MainGo.donutWidth g) (MainGo.donutHeight g) dn) as Hsp.
    inversion Hsp as [[Hrot Hrs]].
    split; [congruence |]. split; [congruence |]. split; [congruence |].
    split.
    + rewrite Hrot, Hr, Hs, S_INR. ring.
    + intros _ Hfw Hfh. now apply updateDonut_inBounds.
Qed.

Lemma runMainGo_invariant_witness :
  exists d',
    MainGo.donuts (runMainGo 3 (MainGo.mkGame 64 64 grazing 800 600)) !! 0%nat
      = Some d' /\
    Rabs (vx d') = 2 /\ rotation d' = 0.06 /\ inBounds 800 600 64 64 d'.
Proof.
  destruct (runMainGo_invariant 3 (MainGo.mkGame 64 64 grazing 800 600) 0
              (mkDonut 2 100 (-2) 2 0 0.02) eq_refl)
    as (d' & Hd' & Hvx & _ & _ & Hr & Hb).
  exists d'. split; [exact Hd' |]. split; [| split].
  - rewrite Hvx. simpl. rewrite Rabs_left by lra. lra.
  - rewrite Hr. simpl. lra.
  - apply Hb; [lia | simpl; lra | simpl; lra].
Defined.

(** ** The first variant: resize without respawn *)

(** In the variant with a single donut [Layout] only stores the new size:
    the donut is neither moved nor respawned.  The next [Update] brings it
    inside the bounds of the new screen, when a body fits in it, and keeps
    its speed on each axis. *)
Theorem Single_resize_then_update :
  forall (g : Single.Game) (inp : Input) (outsideWidth outsideHeight : Z),
    let g1 := snd (Single.Layout outsideWidth outsideHeight g) in
    let g2 := snd (Single.Update inp g1) in
    (Single.x g1 = Single.x g /\ Single.y g1 = Single.y g /\
     Single.vx g1 = Single.vx g /\ Single.vy g1 = Single.vy g /\
     Single.screenWidth g1 = outsideWidth /\
     Single.screenHeight g1 = outsideHeight) /\
    (inp KeyEscape = false ->
     Single.donutWidth g <= IZR outsideWidth ->
     Single.donutHeight g <= IZR outsideHeight ->
     0 <= Single.x g2 <= IZR outsideWidth - Single.donutWidth g /\
     0 <= Single.y g2 <= IZR outsideHeight - Single.donutHeight g /\
     Rabs (Single.vx g2) = Rabs (Single.vx g) /\
     Rabs (Single.vy g2) = Rabs (Single.vy g)).
Proof.
  intros g inp W H g1 g2. split; [now repeat split |].
  intros Hesc Hw Hh. unfold g2, g1, Single.Update, Single.Layout.
  cbn [snd Single.x Single.y Single.vx Single.vy Single.screenWidth
       Single.screenHeight Single.donutWidth Single.donutHeight].
  rewrite Hesc. unfold fge.
  fcases; cbn [snd Single.x Single.y Single.vx Single.vy];
    repeat split; try lra; try reflexivity; apply Rabs_Ropp.
Qed.

Lemma Single_resize_then_update_witness :
  0 <= Single.x (snd (Single.Update noKeys
                        (snd (Single.Layout 120 90 (Single.initialGame 128 128)))))
    <= 120 - 64.
Proof.
  destruct (Single_resize_then_update (Single.initialGame 128 128) noKeys 120 90)
    as [_ Hb].
  destruct Hb as (Hx & _);
    [reflexivity | simpl; unfold donutScale; lra | simpl; unfold donutScale; lra |].
  cbn [Single.donutWidth Single.initialGame] in Hx. unfold donutScale in Hx.
  destruct Hx as [Hx0 Hx1]. split; [exact Hx0 | lra].
Defined.

(** ** Rendering *)

Lemma sqrt_scaled (s a b : R) :
  0 <= s -> sqrt (s * a * (s * a) + s * b * (s * b)) = s * sqrt (a * a + b * b).
Proof.
  intros Hs.
  replace (s * a * (s * a) + s * b * (s * b)) with ((s * s) * (a * a + b * b)) by ring.
  rewrite sqrt_mult; [| nra | apply sum_squares_nonneg].
  now rewrite sqrt_square.
Qed.

Lemma donutGeoM_Apply g donut u v :
  GeoM_Apply (donutGeoM g donut) (u, v) =
  (x donut + donutWidth g / 2
     + (cos (rotation donut) * (donutScale * u - donutWidth g / 2)
        - sin (rotation donut) * (donutScale * v - donutHeight g / 2)),
   y donut + donutHeight g / 2
     + (sin (rotation donut) * (donutScale * u - donutWidth g / 2)
        + cos (rotation donut) * (donutScale * v - donutHeight g / 2))).
Proof.
  unfold donutGeoM, GeoM_Rotate, feq.
  destruct (Req_dec_T (rotation donut) 0) as [H0 | _].
  - rewrite H0, cos_0, sin_0. unfold GeoM_Apply; simpl. f_equal; lra.
  - unfold GeoM_Apply; simpl. f_equal; lra.
Qed.

(** [Draw] turns the sprite about the centre of the donut's bounding box:
    the middle of the image (half its width and height, the image being the
    body size divided by [donutScale]) is drawn at the position plus half
    the body size, whatever the rotation, and every other point of the image
    is drawn at [donutScale] times its distance from the middle. *)
Theorem Draw_turns_about_centre :
  forall (g : Game) (donut : Donut) (u v : R),
    let middle := (donutWidth g / donutScale / 2, donutHeight g / donutScale / 2) in
    GeoM_Apply (donutGeoM g donut) middle
      = (x donut + donutWidth g / 2, y donut + donutHeight g / 2) /\
    dist (x donut + donutWidth g / 2, y donut + donutHeight g / 2)
         (GeoM_Apply (donutGeoM g donut) (u, v))
      = donutScale * dist middle (u, v).
Proof.
  intros g donut u v middle. unfold middle.
  rewrite !donutGeoM_Apply. unfold donutScale. split.
  - replace (0.5 * (donutWidth g / 0.5 / 2) - donutWidth g / 2) with 0 by lra.
    replace (0.5 * (donutHeight g / 0.5 / 2) - donutHeight g / 2) with 0 by lra.
    f_equal; ring.
  - unfold dist. cbn [fst snd].
    set (c := cos (rotation donut)). set (s := sin (rotation donut)).
    set (a := u - donutWidth g / 0.5 / 2). set (b := v - donutHeight g / 0.5 / 2).
    assert (Hcs : s * s + c * c = 1).
    { pose proof (sin2_cos2 (rotation donut)) as Hsc. unfold Rsqr in Hsc. exact Hsc. }
    rewrite <- sqrt_scaled by lra.
    f_equal.
    replace (x donut + donutWidth g / 2 +
             (c * (0.5 * u - donutWidth g / 2) - s * (0.5 * v - donutHeight g / 2)) -
             (x donut + donutWidth g / 2))
      with (c * (0.5 * a) - s * (0.5 * b)) by (unfold a, b; lra).
    replace (y donut + donutHeight g / 2 +
             (s * (0.5 * u - donutWidth g / 2) + c * (0.5 * v - donutHeight g / 2)) -
             (y donut + donutHeight g / 2))
      with (s * (0.5 * a) + c * (0.5 * b)) by (unfold a, b; lra).
    replace ((c * (0.5 * a) - s * (0.5 * b)) * (c * (0.5 * a) - s * (0.5 * b)) +
             (s * (0.5 * a) + c * (0.5 * b)) * (s * (0.5 * a) + c * (0.5 * b)))
      with ((s * s + c * c) * (0.5 * a * (0.5 * a) + 0.5 * b * (0.5 * b))) by ring.
    rewrite Hcs. ring.
Qed.

(** ** The order of a pair *)

(** For two donuts whose centres do not coincide, the outcome of the
    resolver does not depend on which of the two is named first. *)
Theorem resolveCollision_symmetric :
  forall (g : Game) (d1 d2 : Donut),
    let r := donutWidth g / 2 in
    dist (center r d1) (center r d2) <> 0 ->
    resolveCollision g d2 d1 (x d2 + r) (y d2 + r) (x d1 + r) (y d1 + r) =
    (snd (resolveCollision g d1 d2 (x d1 + r) (y d1 + r) (x d2 + r) (y d2 + r)),
     fst (resolveCollision g d1 d2 (x d1 + r) (y d1 + r) (x d2 + r) (y d2 + r))).
Proof.
  intros g d1 d2 r HD. unfold dist, center in HD. cbn [fst snd] in HD.
  unfold resolveCollision. fold r.
  set (dx := x d2 + r - (x d1 + r)) in *. set (dy := y d2 + r - (y d1 + r)) in *.
  replace (x d1 + r - (x d2 + r)) with (- dx) by (unfold dx; ring).
  replace (y d1 + r - (y d2 + r)) with (- dy) by (unfold dy; ring).
  replace (- dx * - dx + - dy * - dy) with (dx * dx + dy * dy) by ring.
  set (D := sqrt (dx * dx + dy * dy)) in *.
  rewrite !feq_false by exact HD.
  set (nx := dx / D). set (ny := dy / D).
  replace (- dx / D) with (- nx) by (unfold nx; field; exact HD).
  replace (- dy / D) with (- ny) by (unfold ny; field; exact HD).
  replace ((vx d1 - vx d2) * - nx + (vy d1 - vy d2) * - ny)
    with ((vx d2 - vx d1) * nx + (vy d2 - vy d1) * ny) by ring.
  destruct (fgt _ 0); cbn [fst snd]; f_equal; f_equal; lra.
Qed.

Lemma resolveCollision_symmetric_witness :
  resolveCollision (sampleGame []) (mkDonut 30 0 (-1) 0 0 0) (mkDonut 0 0 1 0 0 0)
    (30 + 64 / 2) (0 + 64 / 2) (0 + 64 / 2) (0 + 64 / 2) =
  (snd (resolveCollision (sampleGame []) (mkDonut 0 0 1 0 0 0)
          (mkDonut 30 0 (-1) 0 0 0)
          (0 + 64 / 2) (0 + 64 / 2) (30 + 64 / 2) (0 + 64 / 2)),
   fst (resolveCollision (sampleGame []) (mkDonut 0 0 1 0 0 0)
          (mkDonut 30 0 (-1) 0 0 0)
          (0 + 64 / 2) (0 + 64 / 2) (30 + 64 / 2) (0 + 64 / 2))).
Proof.
  apply (resolveCollision_symmetric (sampleGame []) (mkDonut 0 0 1 0 0 0)
           (mkDonut 30 0 (-1) 0 0 0)).
  cbn [donutWidth sampleGame]. rewrite dist_aligned by (simpl; lra).
  simpl. lra.
Defined.

(** ** The size of the timer overlay *)

(** The text of the overlay has nine characters as long as the hours take
    three digits, and never fewer: the temporary image of [drawTimer] is 63
    pixels wide for the first thousand hours and at least that afterwards. *)
Theorem timerTextWidth_bounds :
  forall (g : Game) (now : Time),
    (63 <= timerTextWidth g now)%Z /\
    ((shownSeconds g now < 3600000)%Z -> timerTextWidth g now = 63%Z).
Proof.
  intros g now. unfold timerTextWidth. rewrite timerText_fields.
  set (total := shownSeconds g now).
  assert (H0 : (0 <= total)%Z) by (unfold total, shownSeconds; lia).
  assert (Hh : (0 <= total / 3600)%Z) by (apply Z.div_pos; lia).
  assert (Hm : (0 <= (total / 60) mod 60 < 60)%Z) by (apply Z.mod_pos_bound; lia).
  assert (Hs : (0 <= total mod 60 < 60)%Z) by (apply Z.mod_pos_bound; lia).
  rewrite !string_length_app, !fmt_0d_length by lia.
  pose proof (digits_length_2 ((total / 60) mod 60) ltac:(lia)).
  pose proof (digits_length_2 (total mod 60) ltac:(lia)).
  cbn [String.length].
  split; [lia |].
  intros Hlt.
  assert (Hh3 : (total / 3600 < 1000)%Z) by (apply Z.div_lt_upper_bound; lia).
  pose proof (digits_length_3 (total / 3600) ltac:(lia)). lia.
Qed.

Lemma timerTextWidth_bounds_witness :
  timerTextWidth (mkGame 64 64 [] 800 600 1 0) 3725500000000 = 63%Z.
Proof.
  apply (timerTextWidth_bounds (mkGame 64 64 [] 800 600 1 0) 3725500000000%Z).
  vm_compute. reflexivity.
Defined.

Lemma ticks_energy_witness :
  exists d,
    donuts (ticks 1 (sampleGame grazing)) !! 0%nat = Some d /\
    vx d * vx d + vy d * vy d <= 32.25.
Proof.
  assert (Hd : donuts (ticks 1 (sampleGame grazing)) !! 0%nat
               = Some (mkDonut (-0.25) 102 (-4.5) 2 0.02 0.02)).
  { change (ticks 1 (sampleGame grazing)) with (tick (sampleGame grazing)).
    now rewrite tick_grazing. }
  exists (mkDonut (-0.25) 102 (-4.5) 2 0.02 0.02). split; [exact Hd |].
  destruct (ticks_energy 1 (sampleGame grazing)) as [_ Hb].
  specialize (Hb 0%nat _ Hd).
  unfold sampleGame, grazing, total, kinetic in Hb. cbn [donuts fold_right vx vy] in Hb.
  cbn [vx vy]. lra.
Defined.

(** ** Repeated resize notifications *)

(** The framework calls [Layout] again and again with the same size: once
    a call has returned, a second call with the same size changes nothing
    and draws nothing, so the donuts are not respawned frame after frame. *)
Theorem Layout_idempotent :
  forall (g g1 : Game) (r r1 : Rand) (outsideWidth outsideHeight w0 h0 : Z),
    Layout outsideWidth outsideHeight g r = Some (w0, h0, g1, r1) ->
    w0 = outsideWidth /\ h0 = outsideHeight /\
    Layout outsideWidth outsideHeight g1 r1 =
      Some (outsideWidth, outsideHeight, g1, r1).
Proof.
  intros g g1 r r1 W H w0 h0 HL.
  assert (Hscr : w0 = W /\ h0 = H /\ screenWidth g1 = W /\ screenHeight g1 = H).
  { unfold Layout in HL.
    destruct (Z.eqb_spec (screenWidth g) W) as [Ew | Nw];
      destruct (Z.eqb_spec (screenHeight g) H) as [Eh | Nh]; cbn [negb orb] in HL;
      try (cbn [screenWidth screenHeight donutWidth donutHeight numDonuts setScreen]
             in HL;
           destruct (createDonuts W H (donutWidth g) (donutHeight g) (numDonuts g) r)
             as [[ds r'] |]; [| discriminate HL];
           simpl in HL; inversion HL; subst; now repeat split).
    inversion HL; subst. now repeat split. }
  destruct Hscr as (-> & -> & Hw & Hh).
  split; [reflexivity |]. split; [reflexivity |].
  unfold Layout. now rewrite Hw, Hh, !Z.eqb_refl.
Qed.

Lemma Layout_idempotent_witness :
  exists g1 r1,
    Layout 1024 768 (sampleGame grazing) (constRand 0) =
      Some (1024%Z, 768%Z, g1, r1) /\
    Layout 1024 768 g1 r1 = Some (1024%Z, 768%Z, g1, r1).
Proof.
  destruct (Layout_wellFormed 1024 768 (sampleGame grazing) (constRand 0))
    as (g1 & r1 & HL & _).
  { split; simpl; unfold minDonuts, maxDonuts; lia. }
  exists g1, r1. split; [exact HL |].
  apply (Layout_idempotent _ _ _ _ _ _ _ _ HL).
Defined.
